(** * example-backend-dapp: the App service of [app/app.js]

    A shallow embedding of the [App] class (start-up, balance refresh,
    Transfer watch and the Express route handlers) together with the
    properties of its REST behaviour.

    Conventions.
    - Evaluating an expression that yields a promise gives an [outcome]:
      the promise settles ([Resolved v], [Rejected e]) or the expression
      throws on the spot and there is no promise ([Throws e], as web3 does
      for an argument it cannot encode).  Promises that never settle are
      not part of the model: every statement is about runs whose promises
      settle.  [await p], [try/catch] and [p.then(f).catch(g)] are read
      through the monad [M] below.
    - Everything the node, the wallet provider and the contract answer is
      collected in a [Chain] record: the handlers are functions of it.
    - Everything a handler does to the outside (contract calls, the
      response, console lines) is recorded, in program order, as a list of
      [effect]s. *)

From Stdlib Require Import List String Ascii Bool Arith NArith ZArith Lia.
From Stdlib.Strings Require Import Byte.
From Stdlib Require Import DecimalString DecimalN DecimalFacts.
Import ListNotations.
Open Scope string_scope.

Set Implicit Arguments.
Set Warnings "-register-all".

(* ================================================================== *)
(** ** JavaScript values that cross the boundary *)

(** An [Error] object: what web3 rejects with and what [throw new Error]
    builds. *)
Record JsError := mkError { err_name : string; err_message : string }.

(** [new Error(msg)] *)
Definition Error (msg : string) : JsError :=
  {| err_name := "Error"; err_message := msg |}.

(** [error.toString()], i.e. [Error.prototype.toString]. *)
Definition toString (e : JsError) : string :=
  if (err_name e =? "")%string then err_message e
  else if (err_message e =? "")%string then err_name e
  else err_name e ++ ": " ++ err_message e.

(** What evaluating a promise-valued expression gives: a promise that is
    fulfilled or rejected, or an exception thrown before any promise
    exists.  Also the result of a piece of code: it ran to its end, it
    left a rejected promise behind, or it threw. *)
Inductive outcome (A : Type) : Type :=
| Resolved (a : A)
| Rejected (e : JsError)
| Throws (e : JsError).
Arguments Resolved {A} a.
Arguments Rejected {A} e.
Arguments Throws {A} e.

(** Bodies handed to [res.send] and arguments handed to web3. [JErr] is an
    [Error] object passed as it is ([res.send(error)]); [JUndef] is a
    field that was never assigned. *)
Inductive json : Type :=
| JUndef
| JStr (s : string)
| JNum (n : N)
| JArr (items : list json)
| JObj (fields : list (string * json))
| JErr (e : JsError).

(** [a || b] on strings that may be undefined: the empty string is falsy. *)
Definition or_default (a : option string) (b : string) : string :=
  match a with
  | Some s => if (s =? "")%string then b else s
  | None => b
  end.

(** Truthiness of a string that may be undefined/null. *)
Definition truthy (a : option string) : bool :=
  match a with
  | Some s => negb (s =? "")%string
  | None => false
  end.

(* ================================================================== *)
(** ** Strings: the pattern [/^\d+$/] and number rendering *)

(** [\d] : one of the ten ASCII digits. *)
Definition is_digit (c : ascii) : bool :=
  let n := N_of_ascii c in ((48 <=? n) && (n <=? 57))%N.

Fixpoint all_digits (s : string) : bool :=
  match s with
  | EmptyString => true
  | String c r => is_digit c && all_digits r
  end.

(** [s.match(/^\d+$/g)] is non-null: one or more digits and nothing else
    (no [m] flag, so [$] is the end of the input). *)
Definition match_digits (s : string) : bool :=
  match s with
  | EmptyString => false
  | String _ _ => all_digits s
  end.

(** [bn.toString(10)] as web3 renders a uint256: decimal, no leading zero,
    ["0"] for zero. *)
Definition toString10 (n : N) : string :=
  NilZero.string_of_uint (N.to_uint n).

(** Reading a decimal string back as a number (what the ABI encoder does
    with a uint256 argument given as a decimal string). *)
Definition parseDecimal (s : string) : option N :=
  option_map N.of_uint (NilZero.uint_of_string s).

(** Lower-case hexadecimal digit of a nibble. *)
Definition hex_digit (n : N) : ascii :=
  match n with
  | 0 => "0" | 1 => "1" | 2 => "2" | 3 => "3" | 4 => "4" | 5 => "5"
  | 6 => "6" | 7 => "7" | 8 => "8" | 9 => "9" | 10 => "a" | 11 => "b"
  | 12 => "c" | 13 => "d" | 14 => "e" | _ => "f"
  end%N%char.

(** Value of a hexadecimal digit, either case. *)
Definition hex_value (c : ascii) : option N :=
  let n := N_of_ascii c in
  if ((48 <=? n) && (n <=? 57))%N then Some (n - 48)%N
  else if ((97 <=? n) && (n <=? 102))%N then Some (n - 87)%N
  else if ((65 <=? n) && (n <=? 70))%N then Some (n - 55)%N
  else None.

(** [buffer.toString('hex')] : two digits per byte, high nibble first. *)
Fixpoint hex_of_bytes (bs : list byte) : string :=
  match bs with
  | [] => EmptyString
  | b :: r =>
      let n := Byte.to_N b in
      String (hex_digit (n / 16)) (String (hex_digit (n mod 16)) (hex_of_bytes r))
  end.

(** Big-endian value of a byte string. *)
Definition bytes_value (bs : list byte) : N :=
  fold_left (fun acc b => acc * 256 + Byte.to_N b)%N bs 0%N.

(** [new BN(digits, 16)], most significant digit first. *)
Fixpoint hex_digits_value (s : string) (acc : N) : option N :=
  match s with
  | EmptyString => Some acc
  | String c r =>
      match hex_value c with
      | Some d => hex_digits_value r (acc * 16 + d)%N
      | None => None
      end
  end.

(** [web3.utils.randomHex(size)]: ["0x"] followed by the hex rendering of
    [size] bytes read from the system's random source [rng]. *)
Definition randomHex (rng : nat -> byte) (size : nat) : string :=
  "0x" ++ hex_of_bytes (map rng (seq 0 size)).

(** [web3.utils.hexToNumberString(hex)] on a 0x-prefixed hex string, the
    only shape the app passes: [toBN(hex).toString(10)].  [None] stands
    for the exception web3 raises on text that is not hexadecimal. *)
Definition hexToNumberString (hex : string) : option string :=
  match hex with
  | String "0" (String "x" digits) =>
      option_map toString10 (hex_digits_value digits 0%N)
  | _ => None
  end.

(* ================================================================== *)
(** ** The application object and its surroundings *)

(** The bound contract, [this.contract]; only [options.address] is read
    by the app itself. *)
Record ContractHandle := { address : string }.

(** The fields [start] assigns on [this].  A field is [None] until its
    assignment has run. *)
Record App := {
  currentAccount : option string;
  balance : option string;
  networkId : option N;
  contract : option ContractHandle;
  name : option string
}.

(** The object right after the constructor. *)
Definition new_App : App :=
  {| currentAccount := None; balance := None; networkId := None;
     contract := None; name := None |}.

Definition set_currentAccount (v : string) (a : App) : App :=
  {| currentAccount := Some v; balance := balance a; networkId := networkId a;
     contract := contract a; name := name a |}.
Definition set_balance (v : string) (a : App) : App :=
  {| currentAccount := currentAccount a; balance := Some v;
     networkId := networkId a; contract := contract a; name := name a |}.
Definition set_networkId (v : N) (a : App) : App :=
  {| currentAccount := currentAccount a; balance := balance a;
     networkId := Some v; contract := contract a; name := name a |}.
Definition set_contract (v : ContractHandle) (a : App) : App :=
  {| currentAccount := currentAccount a; balance := balance a;
     networkId := networkId a; contract := Some v; name := name a |}.
Definition set_name (v : string) (a : App) : App :=
  {| currentAccount := currentAccount a; balance := balance a;
     networkId := networkId a; contract := contract a; name := Some v |}.

(** [process.env] and the artifact module loaded by [require]. *)
Record Env := {
  API_URL : option string;
  WEB_URL : option string;
  artifacts : json
}.

(** Arguments of [contract.methods.mintWithTokenURI(to, tokenId, tokenURI)];
    [to] is [req.query.to], absent when the query has no such key. *)
Record MintArgs := {
  mint_to : option string;
  mint_tokenId : string;
  mint_tokenURI : string
}.

(** Options object of [method.send]. *)
Record TxOptions := {
  tx_from : option string;
  tx_gas : N;
  tx_gasPrice : string
}.

(** What [method.send(options, callback)] does: it throws on the spot, or
    it calls [callback(error, transactionHash)] once. *)
Inductive send_outcome :=
| SendThrows (e : JsError)
| SendCallback (error : option JsError) (transactionHash : option string).

(** The answers of the node and of the contract behind it.  A uint256
    result is kept as a number here; web3 hands it to the app as the
    decimal string [toString10 n]. *)
Record Chain := {
  eth_getAccounts : outcome (list string);
  eth_getBalance : option string -> outcome string;
  net_getId : outcome N;
  (** [new Contract(web3, networkId, artifacts).deployed()]; the module
      [./contract] is taken as given. *)
  deployed : N -> outcome ContractHandle;
  call_name : outcome string;
  call_symbol : outcome string;
  call_totalSupply : outcome N;
  call_mintLimit : outcome N;
  call_balanceOf : string -> outcome N;
  call_tokenOfOwnerByIndex : string -> N -> outcome N;
  call_imageId : string -> outcome N;
  call_tokenURI : string -> outcome string;
  mint_estimateGas : MintArgs -> outcome N;
  mint_send : MintArgs -> TxOptions -> send_outcome;
  (** the bytes [crypto.randomBytes] delivers to this request *)
  randomBytes : nat -> byte
}.

(** What the app does to the outside world, in program order.  [Call],
    [EstimateGas], [Send] and [Web3] record that the app made the call
    into web3, whatever web3 then does with it. *)
Inductive effect :=
| Call (method : string) (args : list json)
| EstimateGas (m : MintArgs)
| Send (m : MintArgs) (o : TxOptions)
| ResSend (body : json)
| Web3 (method : string) (args : list json)
| ConsoleLog (args : list json)
| ConsoleError (e : JsError)
| UseCors
| Listen (port : N)
| SetTimeout (ms : Z)
| SubscribeTransfer
| Exit (code : Z).

(* ================================================================== *)
(** ** The monad of the app's code: [this], exceptions, effects *)

Definition M (A : Type) : Type := App -> outcome A * App * list effect.

Definition ret {A} (a : A) : M A := fun s => (Resolved a, s, []).

Definition bind {A B} (m : M A) (f : A -> M B) : M B :=
  fun s =>
    match m s with
    | (Resolved a, s1, l1) =>
        let '(r, s2, l2) := f a s1 in (r, s2, (l1 ++ l2)%list)
    | (Rejected e, s1, l1) => (Rejected e, s1, l1)
    | (Throws e, s1, l1) => (Throws e, s1, l1)
    end.

(** [throw e] *)
Definition throw {A} (e : JsError) : M A := fun s => (Throws e, s, []).

(** [await p], and the expression [p] at the head of a [p.then(...)]
    chain, for an expression that evaluates as [p]. *)
Definition await {A} (p : outcome A) : M A := fun s => (p, s, []).

(** [try { m } catch (e) { h e }]: catches what [m] throws, and inside an
    [async] function what an awaited promise rejects with. *)
Definition try_catch {A} (m : M A) (h : JsError -> M A) : M A :=
  fun s =>
    match m s with
    | (Rejected e, s1, l1)
    | (Throws e, s1, l1) =>
        let '(r, s2, l2) := h e s1 in (r, s2, (l1 ++ l2)%list)
    | r => r
    end.

(** An exception thrown inside a promise callback rejects the promise
    the callback feeds. *)
Definition as_rejection {A} (o : outcome A) : outcome A :=
  match o with
  | Throws e => Rejected e
  | _ => o
  end.

(** [p.then(f)] where [p] is what the expression [m] evaluates to.  When
    [m] throws there is no promise to chain on: the exception leaves the
    enclosing function, whatever [.then] or [.catch] follows in the text. *)
Definition then_ {A B} (m : M A) (f : A -> M B) : M B :=
  fun s =>
    match m s with
    | (Resolved a, s1, l1) =>
        let '(r, s2, l2) := f a s1 in (as_rejection r, s2, (l1 ++ l2)%list)
    | (Rejected e, s1, l1) => (Rejected e, s1, l1)
    | (Throws e, s1, l1) => (Throws e, s1, l1)
    end.

(** [p.catch(h)]: runs [h] on a rejection; a synchronous throw of the
    expression before it is not a rejection and passes by. *)
Definition catch_ {A} (m : M A) (h : JsError -> M A) : M A :=
  fun s =>
    match m s with
    | (Rejected e, s1, l1) =>
        let '(r, s2, l2) := h e s1 in (as_rejection r, s2, (l1 ++ l2)%list)
    | r => r
    end.

(** [const promise = <expression>]: the promise, unless the expression
    throws. *)
Definition promise_of {A} (p : outcome A) : M (outcome A) :=
  fun s =>
    match p with
    | Throws e => (Throws e, s, [])
    | _ => (Resolved p, s, [])
    end.

Definition emit (e : effect) : M unit := fun s => (Resolved tt, s, [e]).
Definition this : M App := fun s => (Resolved s, s, []).
Definition assign (f : App -> App) : M unit := fun s => (Resolved tt, f s, []).

Declare Scope app_scope.
Delimit Scope app_scope with app.
Notation "x <- m ;; k" := (bind m (fun x => k))
  (at level 61, m at next level, right associativity) : app_scope.
Notation "m ;; k" := (bind m (fun _ => k))
  (at level 61, right associativity) : app_scope.
Open Scope app_scope.

(** Observations of a run. *)
Definition result_of {A} (r : outcome A * App * list effect) : outcome A :=
  fst (fst r).
Definition state_of {A} (r : outcome A * App * list effect) : App :=
  snd (fst r).
Definition effects_of {A} (r : outcome A * App * list effect) : list effect :=
  snd r.

Definition is_response (e : effect) : option json :=
  match e with ResSend b => Some b | _ => None end.

(** The bodies sent with [res.send], in order. *)
Fixpoint responses (l : list effect) : list json :=
  match l with
  | [] => []
  | e :: r =>
      match is_response e with
      | Some b => b :: responses r
      | None => responses r
      end
  end.

Definition is_rpc (e : effect) : bool :=
  match e with
  | Call _ _ | EstimateGas _ | Send _ _ | Web3 _ _ => true
  | _ => false
  end.

(** The calls made into web3: reads, gas estimates, sends. *)
Definition rpcs (l : list effect) : list effect := filter is_rpc l.

Definition is_send (e : effect) : bool :=
  match e with Send _ _ => true | _ => false end.

(* ================================================================== *)
(** ** Small pieces of the JavaScript the handlers use *)

Definition opt_str (o : option string) : json :=
  match o with Some s => JStr s | None => JUndef end.

Definition opt_num (o : option N) : json :=
  match o with Some n => JNum n | None => JUndef end.

(** [obj[k] = v] on an object kept as an ordered list of fields. *)
Fixpoint set_field (k : string) (v : json) (o : list (string * json))
  : list (string * json) :=
  match o with
  | [] => [(k, v)]
  | (k', v') :: r =>
      if (k =? k')%string then (k, v) :: r else (k', v') :: set_field k v r
  end.

(** [Object.assign(target, ...sources)] *)
Definition object_assign (target : list (string * json))
    (sources : list (list (string * json))) : list (string * json) :=
  fold_left (fun t src => fold_left (fun t' kv => set_field (fst kv) (snd kv) t') src t)
            sources target.

(** [for (var i = 0; i < n; i++)]: the values [i] takes. *)
Definition indices (n : N) : list N := map N.of_nat (seq 0 (N.to_nat n)).

(** Runs [f] on each element in turn and collects the results
    ([promises.push(...)] in a loop). *)
Fixpoint for_each {A B} (f : A -> M B) (l : list A) : M (list B) :=
  match l with
  | [] => ret []
  | x :: r => y <- f x ;; ys <- for_each f r ;; ret (y :: ys)
  end.

(** [Promise.all(ps)]: all the values, in order, or a rejection.  When
    several promises reject, JavaScript keeps the reason of the one that
    settles first; here they are taken to settle in index order. *)
Fixpoint promise_all {A} (ps : list (outcome A)) : outcome (list A) :=
  match ps with
  | [] => Resolved []
  | Rejected e :: _ => Rejected e
  | Throws e :: _ => Rejected e
  | Resolved a :: r =>
      match promise_all r with
      | Resolved l => Resolved (a :: l)
      | Rejected e => Rejected e
      | Throws e => Rejected e
      end
  end.

(** [this.contract.methods.<method>(...args).call()]: the call is made
    (and recorded), and web3 answers with a promise or throws while
    encoding the arguments.  Handlers exist only once [createServer] has
    run, which [start] does after assigning [this.contract]; the handle
    is therefore present whenever one runs. *)
Definition call {A} (method : string) (args : list json) (answer : outcome A)
  : M A :=
  emit (Call method args) ;; await answer.

(** [res.send(body)] *)
Definition res_send (body : json) : M unit := emit (ResSend body).

(* ================================================================== *)
(** ** The route handlers registered by [createServer] *)

Section Handlers.
Variable env : Env.
Variable chain : Chain.

(** [GET /] *)
Definition get_root : M unit :=
  a <- this ;;
  res_send (JObj [
    ("networkId", opt_num (networkId a));
    ("contractAddress", opt_str (option_map address (contract a)));
    ("address", opt_str (currentAccount a));
    ("balance", opt_str (balance a));
    ("name", opt_str (name a)) ]).

(** [GET /abi] *)
Definition get_abi : M unit := res_send (artifacts env).

(** [GET /totalSupply] *)
Definition get_totalSupply : M unit :=
  catch_
    (then_ (call "totalSupply" [] (call_totalSupply chain))
       (fun totalSupply => res_send (JStr (toString10 totalSupply))))
    (fun error => res_send (JErr error)).

(** [GET /name] *)
Definition get_name : M unit :=
  catch_
    (then_ (call "name" [] (call_name chain))
       (fun name => res_send (JObj [("name", JStr name)])))
    (fun error => res_send (JErr error)).

(** [GET /mintLimit] *)
Definition get_mintLimit : M unit :=
  catch_
    (then_ (call "mintLimit" [] (call_mintLimit chain))
       (fun mintLimit => res_send (JObj [("mintLimit", JStr (toString10 mintLimit))])))
    (fun error => res_send (JErr error)).

(** [GET /symbol] *)
Definition get_symbol : M unit :=
  catch_
    (then_ (call "symbol" [] (call_symbol chain))
       (fun symbol => res_send (JObj [("symbol", JStr symbol)])))
    (fun error => res_send (JErr error)).

(** [GET /:ownerAddress/tokens] *)
Definition get_owner_tokens (ownerAddress : string) : M unit :=
  let owner := ownerAddress in
  catch_
    (then_ (call "balanceOf" [JStr owner] (call_balanceOf chain owner))
       (fun balance =>
          promises <- for_each
            (fun i =>
               emit (Call "tokenOfOwnerByIndex" [JStr owner; JNum i]) ;;
               promise_of (call_tokenOfOwnerByIndex chain owner i))
            (indices balance) ;;
          then_ (await (promise_all promises))
            (fun tokens =>
               res_send (JObj [("tokens",
                                JArr (map (fun t => JStr (toString10 t)) tokens))]))))
    (fun error => res_send (JErr error)).

(** [GET /:ownerAddress/balance] *)
Definition get_owner_balance (ownerAddress : string) : M unit :=
  catch_
    (then_ (call "balanceOf" [JStr ownerAddress]
              (call_balanceOf chain ownerAddress))
       (fun balance => res_send (JObj [("balance", JStr (toString10 balance))])))
    (fun error => res_send (JErr error)).

Definition invalid_token_id : json :=
  JObj [("error", JObj [("message", JStr "Invalid token id passed")])].

(** [GET /tokens/:tokenId].  The promise chain has no [catch]: a
    rejected [imageId] read is the (unhandled) result of the run, and so
    is an exception web3 throws on the id. *)
Definition get_token (tokenId : string) : M unit :=
  if (tokenId =? "")%string || negb (match_digits tokenId) then
    res_send invalid_token_id
  else
    then_ (call "imageId" [JStr tokenId] (call_imageId chain tokenId))
      (fun imageIndex =>
         let baseUrl :=
           or_default (WEB_URL env) "https://example-dapp-1.bitski.com" in
         let description := "An example of an ERC-721 token" in
         a <- this ;;
         let name := name a in
         let imageUrl :=
           baseUrl ++ "/assets/character-" ++ toString10 imageIndex ++ ".png" in
         let erc721Details :=
           [("name", opt_str name); ("description", JStr description);
            ("image", JStr imageUrl)] in
         let openSeaExtras := [("external_url", JStr baseUrl)] in
         let rareBitsExtras :=
           [("image_url", JStr imageUrl); ("home_url", JStr baseUrl)] in
         res_send (JObj (object_assign []
                           [erc721Details; openSeaExtras; rareBitsExtras]))).

(** [GET /tokenURI/:tokenId] *)
Definition get_tokenURI (tokenId : string) : M unit :=
  catch_
    (then_ (call "tokenURI" [JStr tokenId] (call_tokenURI chain tokenId))
       (fun uri => res_send (JObj [("tokenURI", JStr uri)])))
    (fun err => res_send (JObj [("error", JStr (toString err))])).

(** The callback handed to [method.send]. *)
Definition send_callback (tokenId : string) (error : option JsError)
    (transactionHash : option string) : M unit :=
  match error with
  | Some error =>
      emit (ConsoleError error) ;;
      res_send (JObj [("error", JStr (toString error))])
  | None =>
      if truthy transactionHash then
        res_send (JObj [("transactionHash", opt_str transactionHash);
                        ("tokenId", JStr tokenId)])
      else
        res_send (JObj [("error",
                         JStr "The transaction hash could not be found.")])
  end.

(** [POST /tokens/new].  [method.estimateGas()] is evaluated outside the
    [try]: when web3 throws there (a recipient it cannot encode), nothing
    catches it.  The [try] inside the callback covers [method.send]. *)
Definition post_tokens_new (to : option string) : M unit :=
  let tokenId := randomHex (randomBytes chain) 32 in
  match hexToNumberString tokenId with
  | None => (* not reached: see [hexToNumberString_randomHex] *)
      throw (Error "invalid number value")
  | Some tokenIdString =>
      let baseUrl :=
        or_default (API_URL env) "https://example-dapp-1-api.bitski.com" in
      let tokenURI := baseUrl ++ "/tokens/" ++ tokenIdString in
      let method :=
        {| mint_to := to; mint_tokenId := tokenId; mint_tokenURI := tokenURI |} in
      catch_
        (then_ (emit (EstimateGas method) ;; await (mint_estimateGas chain method))
           (fun gas =>
              try_catch
                (a <- this ;;
                 let options := {| tx_from := currentAccount a; tx_gas := gas;
                                   tx_gasPrice := "1100000000" |} in
                 emit (Send method options) ;;
                 match mint_send chain method options with
                 | SendThrows error => throw error
                 | SendCallback error transactionHash =>
                     send_callback tokenId error transactionHash
                 end)
                (fun error =>
                   emit (ConsoleError error) ;;
                   res_send (JObj [("error", JStr (toString error))]))))
        (fun error => res_send (JObj [("error", JStr (toString error))]))
  end.

(** The requests the router hands to a handler, one per registered
    route, with the parameters Express extracted. *)
Inductive request :=
| GetRoot
| GetAbi
| GetTotalSupply
| GetName
| GetMintLimit
| GetSymbol
| GetOwnerTokens (ownerAddress : string)
| GetOwnerBalance (ownerAddress : string)
| GetToken (tokenId : string)
| GetTokenURI (tokenId : string)
| PostTokensNew (to : option string).

Definition handle (r : request) : M unit :=
  match r with
  | GetRoot => get_root
  | GetAbi => get_abi
  | GetTotalSupply => get_totalSupply
  | GetName => get_name
  | GetMintLimit => get_mintLimit
  | GetSymbol => get_symbol
  | GetOwnerTokens o => get_owner_tokens o
  | GetOwnerBalance o => get_owner_balance o
  | GetToken t => get_token t
  | GetTokenURI t => get_tokenURI t
  | PostTokensNew to => post_tokens_new to
  end.

(** *** Routing

    Express tries the routes in the order [createServer] registers them
    and runs the handler of the first whose pattern fits; no handler
    here passes the request on.  A path is given as its segments (the
    pieces between slashes, without percent escapes).  The fixed pieces
    of a pattern are compared without regard to letter case, Express's
    default; a parameter takes one whole segment, which must not be
    empty. *)

Inductive http_method := GET | POST.

Inductive piece :=
| Lit (text : string)
| Param.

Definition lower_char (c : ascii) : ascii :=
  let n := N_of_ascii c in
  if ((65 <=? n) && (n <=? 90))%N then ascii_of_N (n + 32) else c.

Fixpoint lower (s : string) : string :=
  match s with
  | EmptyString => EmptyString
  | String c r => String (lower_char c) (lower r)
  end.

(** The parameters a pattern extracts from a path, if it fits. *)
Fixpoint match_path (pattern : list piece) (path : list string)
  : option (list string) :=
  match pattern, path with
  | [], [] => Some []
  | Lit text :: p, seg :: r =>
      if (lower seg =? lower text)%string then match_path p r else None
  | Param :: p, seg :: r =>
      if (seg =? "")%string then None
      else match match_path p r with
           | Some params => Some (seg :: params)
           | None => None
           end
  | _, _ => None
  end.

Definition http_method_eqb (a b : http_method) : bool :=
  match a, b with
  | GET, GET | POST, POST => true
  | _, _ => false
  end.

(** The route table, in the order of the [this.app.get] and
    [this.app.post] calls; [to] is [req.query.to]. *)
Definition routes (to : option string)
  : list (http_method * list piece * (list string -> request)) :=
  [ (GET, [], fun _ => GetRoot);
    (GET, [Lit "abi"], fun _ => GetAbi);
    (GET, [Lit "totalSupply"], fun _ => GetTotalSupply);
    (GET, [Lit "name"], fun _ => GetName);
    (GET, [Lit "mintLimit"], fun _ => GetMintLimit);
    (GET, [Lit "symbol"], fun _ => GetSymbol);
    (GET, [Param; Lit "tokens"], fun ps => GetOwnerTokens (hd "" ps));
    (GET, [Param; Lit "balance"], fun ps => GetOwnerBalance (hd "" ps));
    (GET, [Lit "tokens"; Param], fun ps => GetToken (hd "" ps));
    (GET, [Lit "tokenURI"; Param], fun ps => GetTokenURI (hd "" ps));
    (POST, [Lit "tokens"; Lit "new"], fun _ => PostTokensNew to) ].

Fixpoint first_match (m : http_method) (path : list string)
    (table : list (http_method * list piece * (list string -> request)))
  : option request :=
  match table with
  | [] => None
  | (m', pattern, build) :: rest =>
      if http_method_eqb m m' then
        match match_path pattern path with
        | Some params => Some (build params)
        | None => first_match m path rest
        end
      else first_match m path rest
  end.

(** The handler invocation a request ends in, if any route fits. *)
Definition dispatch (m : http_method) (path : list string)
    (to : option string) : option request :=
  first_match m path (routes to).

(** The app serving one request.  When no route fits, Express answers
    404 by itself and no code of the app runs.  What Express itself does
    with an exception that leaves a handler is not part of the run: the
    run ends in [Throws] and shows what the handler did until then. *)
Definition serve (m : http_method) (path : list string)
    (to : option string) : M unit :=
  match dispatch m path to with
  | Some r => handle r
  | None => ret tt
  end.

(** [createServer(port)]: CORS, the routes above, then [listen]. *)
Definition createServer (port : N) : M unit :=
  emit UseCors ;;
  emit (Listen port).

(** The callback of [listen], run once the socket is bound. *)
Definition on_listening (port : N) : M unit :=
  emit (ConsoleLog [JStr ("Listening on port " ++ toString10 port ++ "!")]).

(** The two callbacks of [watchTransferEvents]. *)
Definition on_transfer_data (to from tokenId : string) : M unit :=
  emit (ConsoleLog [JStr ("Token " ++ tokenId ++ " was transferred from "
                            ++ from ++ " to " ++ to)]).

Definition on_transfer_error (error : JsError) : M unit :=
  emit (ConsoleLog [JStr "Error subscribing"; JErr error]).

(** [watchTransferEvents()] *)
Definition watchTransferEvents : M unit := emit SubscribeTransfer.

(** [updateBalance()] as [start] sees it: one timer is armed.  What the
    timer does when it fires, and the turns that follow, are the subject
    of [RefreshLoop] below, where [RefreshLoop.boot] is the state this
    call leaves behind. *)
Definition updateBalance : M unit := emit (SetTimeout (60 * 1000)).

(** [async start(port)] *)
Definition start (port : N) : M unit :=
  emit (ConsoleLog [JStr "starting app..."]) ;;
  try_catch
    (accounts <- (emit (Web3 "eth.getAccounts" []) ;;
                  await (eth_getAccounts chain)) ;;
     match accounts with
     | [] => throw (Error "No account found")
     | account0 :: _ =>
         assign (set_currentAccount account0) ;;
         a <- this ;;
         balance <- (emit (Web3 "eth.getBalance" [opt_str (currentAccount a)]) ;;
                     await (eth_getBalance chain (currentAccount a))) ;;
         assign (set_balance balance) ;;
         id <- (emit (Web3 "eth.net.getId" []) ;; await (net_getId chain)) ;;
         assign (set_networkId id) ;;
         c <- await (deployed chain id) ;;
         assign (set_contract c) ;;
         n <- call "name" [] (call_name chain) ;;
         assign (set_name n) ;;
         createServer port ;;
         updateBalance ;;
         watchTransferEvents
     end)
    (fun error => emit (ConsoleError error) ;; emit (Exit 1)).

End Handlers.

(* ================================================================== *)
(** ** The balance refresh loop on the event loop

    [updateBalance] arms a timer; when it fires, the callback issues
    [getBalance], attaches the [then]/[catch] handlers and calls
    [updateBalance] again, all in one turn of the event loop.  The reply
    comes in a later turn.  Times are in milliseconds. *)

Module RefreshLoop.

Local Open Scope Z_scope.

Definition period : Z := 60 * 1000.

(** A [getBalance] request that has been sent and not yet answered. *)
Record query := { qid : nat; issued : Z; account : option string }.

Record state := {
  app : App;
  clock : Z;                (* time of the current turn *)
  timers : list Z;          (* due times of the armed timers, oldest first *)
  inflight : list query;    (* balance queries waiting for their reply *)
  next_qid : nat;
  trace : list effect       (* console lines and requests so far *)
}.

(** [updateBalance()]: [setTimeout(callback, 60 * 1000)] *)
Definition updateBalance (st : state) : state :=
  {| app := app st; clock := clock st;
     timers := timers st ++ [clock st + period];
     inflight := inflight st; next_qid := next_qid st;
     trace := trace st ++ [SetTimeout period] |}.

(** The body of the timer callback: send the query, then re-arm.  The
    query is taken to give a promise: its argument is the account that
    start-up read from the node. *)
Definition timer_callback (st : state) : state :=
  let q := {| qid := next_qid st; issued := clock st;
              account := currentAccount (app st) |} in
  updateBalance
    {| app := app st; clock := clock st; timers := timers st;
       inflight := inflight st ++ [q]; next_qid := S (next_qid st);
       trace := trace st ++ [Web3 "eth.getBalance" [opt_str (account q)]] |}.

(** [.then(balance => { this.balance = balance; console.log(...) })] *)
Definition on_balance (balance : string) (st : state) : state :=
  {| app := set_balance balance (app st); clock := clock st;
     timers := timers st; inflight := inflight st; next_qid := next_qid st;
     trace := trace st ++ [ConsoleLog [JStr ("Current balance: " ++ balance)]] |}.

(** [.catch(error => { console.error(error) })] *)
Definition on_balance_error (error : JsError) (st : state) : state :=
  {| app := app st; clock := clock st; timers := timers st;
     inflight := inflight st; next_qid := next_qid st;
     trace := trace st ++ [ConsoleError error] |}.

(** The turns of the event loop that concern the refresh loop. *)
Inductive event :=
| TimerFires (t : Z)
| BalanceSettles (t : Z) (q : nat) (reply : outcome string).

Definition time_of (e : event) : Z :=
  match e with TimerFires t => t | BalanceSettles t _ _ => t end.

Definition find_query (q : nat) (l : list query) : option query :=
  find (fun x => Nat.eqb (qid x) q) l.

Definition remove_query (q : nat) (l : list query) : list query :=
  filter (fun x => negb (Nat.eqb (qid x) q)) l.

Definition at_time (t : Z) (st : state) : state :=
  {| app := app st; clock := t; timers := timers st;
     inflight := inflight st; next_qid := next_qid st; trace := trace st |}.

Definition settle (q : nat) (st : state) : state :=
  {| app := app st; clock := clock st; timers := timers st;
     inflight := remove_query q (inflight st); next_qid := next_qid st;
     trace := trace st |}.

Definition pop_timer (st : state) : state :=
  {| app := app st; clock := clock st; timers := tl (timers st);
     inflight := inflight st; next_qid := next_qid st; trace := trace st |}.

(** One turn.  A timer fires no earlier than its due time; a reply
    arrives for a query that is waiting; time never runs backwards. *)
Definition step (e : event) (st : state) : option state :=
  if (time_of e <? clock st)%Z then None else
  match e with
  | TimerFires t =>
      match timers st with
      | due :: _ =>
          if (due <=? t)%Z then Some (timer_callback (pop_timer (at_time t st)))
          else None
      | [] => None
      end
  | BalanceSettles t q reply =>
      match find_query q (inflight st) with
      | Some _ =>
          let st1 := settle q (at_time t st) in
          match reply with
          | Resolved balance => Some (on_balance balance st1)
          | Rejected error => Some (on_balance_error error st1)
          | Throws _ => None   (* a reply is a settled promise *)
          end
      | None => None
      end
  end.

Fixpoint run (evs : list event) (st : state) : option state :=
  match evs with
  | [] => Some st
  | e :: r =>
      match step e st with
      | Some st1 => run r st1
      | None => None
      end
  end.

(** The loop as [start] leaves it at time [t0]: [this.updateBalance()]
    has been called once. *)
Definition boot (a : App) (t0 : Z) : state :=
  updateBalance {| app := a; clock := t0; timers := []; inflight := [];
                   next_qid := 0%nat; trace := [] |}.

(** At time [t] no query has been waiting for a whole period. *)
Definition responsive (t : Z) (st : state) : bool :=
  forallb (fun q => (t <? issued q + period)%Z) (inflight st).

(** Every reply of the run arrives less than one period after its
    query was sent: at each turn, nothing has waited a period or more. *)
Fixpoint timely (evs : list event) (st : state) : bool :=
  match evs with
  | [] => true
  | e :: r =>
      responsive (time_of e) st &&
      match step e st with
      | Some st1 => timely r st1
      | None => true
      end
  end.

End RefreshLoop.

(* ================================================================== *)
(** ** Names for what the mint handler builds *)

(** The id the handler draws, its decimal rendering, and the arguments it
    builds for [mintWithTokenURI]. *)
Definition generated_tokenId (chain : Chain) : string :=
  randomHex (randomBytes chain) 32.

Definition generated_tokenIdString (chain : Chain) : string :=
  toString10 (bytes_value (map (randomBytes chain) (seq 0 32))).

Definition mint_method (env : Env) (chain : Chain) (to : option string)
  : MintArgs :=
  {| mint_to := to;
     mint_tokenId := generated_tokenId chain;
     mint_tokenURI :=
       or_default (API_URL env) "https://example-dapp-1-api.bitski.com"
       ++ "/tokens/" ++ generated_tokenIdString chain |}.

(** Options the handler passes to [method.send]. *)
Definition mint_options (app : App) (gas : N) : TxOptions :=
  {| tx_from := currentAccount app; tx_gas := gas; tx_gasPrice := "1100000000" |}.

Definition error_body (e : JsError) : json := JObj [("error", JStr (toString e))].

(* ================================================================== *)
(** ** Sample surroundings used to run the handlers *)

Definition demo_env : Env :=
  {| API_URL := None; WEB_URL := None; artifacts := JObj [] |}.

Definition demo_app : App :=
  {| currentAccount := Some "0xa11ce"; balance := Some "1000";
     networkId := Some 4%N; contract := Some {| address := "0xc0de" |};
     name := Some "Example" |}.

(** A node on which every request succeeds; the random source delivers
    zero bytes except for a final [0x2a]. *)
Definition demo_chain : Chain :=
  {| eth_getAccounts := Resolved ["0xa11ce"];
     eth_getBalance := fun _ => Resolved "1000";
     net_getId := Resolved 4%N;
     deployed := fun _ => Resolved {| address := "0xc0de" |};
     call_name := Resolved "Example";
     call_symbol := Resolved "EX";
     call_totalSupply := Resolved 7%N;
     call_mintLimit := Resolved 5%N;
     call_balanceOf := fun _ => Resolved 2%N;
     call_tokenOfOwnerByIndex := fun _ i => Resolved (i + 10)%N;
     call_imageId := fun _ => Resolved 3%N;
     call_tokenURI := fun t => Resolved ("https://api/tokens/" ++ t);
     mint_estimateGas := fun _ => Resolved 21000%N;
     mint_send := fun _ _ => SendCallback None (Some "0xbeef");
     randomBytes := fun i => if Nat.eqb i 31 then x2a else x00 |}.

Definition rpc_down : JsError := Error "connection not open".

(** The same node, with one kind of request failing. *)
Definition with_name (c : Chain) (r : outcome string) : Chain :=
  {| eth_getAccounts := eth_getAccounts c; eth_getBalance := eth_getBalance c;
     net_getId := net_getId c; deployed := deployed c;
     call_name := r; call_symbol := call_symbol c;
     call_totalSupply := call_totalSupply c; call_mintLimit := call_mintLimit c;
     call_balanceOf := call_balanceOf c;
     call_tokenOfOwnerByIndex := call_tokenOfOwnerByIndex c;
     call_imageId := call_imageId c; call_tokenURI := call_tokenURI c;
     mint_estimateGas := mint_estimateGas c; mint_send := mint_send c;
     randomBytes := randomBytes c |}.

Definition with_estimateGas (c : Chain) (r : outcome N) : Chain :=
  {| eth_getAccounts := eth_getAccounts c; eth_getBalance := eth_getBalance c;
     net_getId := net_getId c; deployed := deployed c;
     call_name := call_name c; call_symbol := call_symbol c;
     call_totalSupply := call_totalSupply c; call_mintLimit := call_mintLimit c;
     call_balanceOf := call_balanceOf c;
     call_tokenOfOwnerByIndex := call_tokenOfOwnerByIndex c;
     call_imageId := call_imageId c; call_tokenURI := call_tokenURI c;
     mint_estimateGas := fun _ => r; mint_send := mint_send c;
     randomBytes := randomBytes c |}.

Definition with_tokenOfOwnerByIndex (c : Chain)
    (f : string -> N -> outcome N) : Chain :=
  {| eth_getAccounts := eth_getAccounts c; eth_getBalance := eth_getBalance c;
     net_getId := net_getId c; deployed := deployed c;
     call_name := call_name c; call_symbol := call_symbol c;
     call_totalSupply := call_totalSupply c; call_mintLimit := call_mintLimit c;
     call_balanceOf := call_balanceOf c;
     call_tokenOfOwnerByIndex := f;
     call_imageId := call_imageId c; call_tokenURI := call_tokenURI c;
     mint_estimateGas := mint_estimateGas c; mint_send := mint_send c;
     randomBytes := randomBytes c |}.

(* ================================================================== *)
(** ** Vocabulary of the statements *)

(** The reply of a successful mint carries the id as a decimal string. *)
Definition mint_reply_decimal (env : Env) (chain : Chain) (to : option string)
    (app : App) : Prop :=
  exists h d,
    match_digits d = true /\
    responses (effects_of (post_tokens_new env chain to app))
    = [JObj [("transactionHash", JStr h); ("tokenId", JStr d)]].

Definition is_serving (e : effect) : bool :=
  match e with
  | Listen _ | SetTimeout _ | SubscribeTransfer => true
  | _ => false
  end.

Definition is_exit (e : effect) : bool :=
  match e with Exit _ => true | _ => false end.

(** Start-up went through: the server listens and the process lives on. *)
Definition startup_succeeds (chain : Chain) (port : N) (app : App) : Prop :=
  In (Listen port) (effects_of (start chain port app)) /\
  existsb is_exit (effects_of (start chain port app)) = false.

(** The refresh loop never has two balance queries waiting. *)
Definition never_overlaps (s0 : RefreshLoop.state) : Prop :=
  forall evs st,
    RefreshLoop.run evs s0 = Some st ->
    (List.length (RefreshLoop.inflight st) <= 1)%nat.

(** The fields of [this] that are fixed once start-up is over. *)
Definition same_identity (a b : App) : Prop :=
  networkId a = networkId b /\ currentAccount a = currentAccount b /\
  contract a = contract b /\ name a = name b.

(** One timer is armed, and it is due no earlier than a period after
    every query still waiting. *)
Definition single_chain (st : RefreshLoop.state) : Prop :=
  exists due,
    RefreshLoop.timers st = [due] /\
    Forall (fun q => (RefreshLoop.issued q + RefreshLoop.period <= due)%Z)
           (RefreshLoop.inflight st).

(* ================================================================== *)
(** ** Further vocabulary: start-up, replies, the loop's history *)

(** Every field of [this] has been assigned. *)
Definition initialised (a : App) : Prop :=
  currentAccount a <> None /\ balance a <> None /\ networkId a <> None /\
  contract a <> None /\ name a <> None.

(** The same node, with another list of accounts. *)
Definition with_accounts (c : Chain) (r : outcome (list string)) : Chain :=
  {| eth_getAccounts := r; eth_getBalance := eth_getBalance c;
     net_getId := net_getId c; deployed := deployed c;
     call_name := call_name c; call_symbol := call_symbol c;
     call_totalSupply := call_totalSupply c; call_mintLimit := call_mintLimit c;
     call_balanceOf := call_balanceOf c;
     call_tokenOfOwnerByIndex := call_tokenOfOwnerByIndex c;
     call_imageId := call_imageId c; call_tokenURI := call_tokenURI c;
     mint_estimateGas := mint_estimateGas c; mint_send := mint_send c;
     randomBytes := randomBytes c |}.

Definition with_send (c : Chain) (r : send_outcome) : Chain :=
  {| eth_getAccounts := eth_getAccounts c; eth_getBalance := eth_getBalance c;
     net_getId := net_getId c; deployed := deployed c;
     call_name := call_name c; call_symbol := call_symbol c;
     call_totalSupply := call_totalSupply c; call_mintLimit := call_mintLimit c;
     call_balanceOf := call_balanceOf c;
     call_tokenOfOwnerByIndex := call_tokenOfOwnerByIndex c;
     call_imageId := call_imageId c; call_tokenURI := call_tokenURI c;
     mint_estimateGas := mint_estimateGas c; mint_send := fun _ _ => r;
     randomBytes := randomBytes c |}.

Definition with_balanceOf (c : Chain) (f : string -> outcome N) : Chain :=
  {| eth_getAccounts := eth_getAccounts c; eth_getBalance := eth_getBalance c;
     net_getId := net_getId c; deployed := deployed c;
     call_name := call_name c; call_symbol := call_symbol c;
     call_totalSupply := call_totalSupply c; call_mintLimit := call_mintLimit c;
     call_balanceOf := f;
     call_tokenOfOwnerByIndex := call_tokenOfOwnerByIndex c;
     call_imageId := call_imageId c; call_tokenURI := call_tokenURI c;
     mint_estimateGas := mint_estimateGas c; mint_send := mint_send c;
     randomBytes := randomBytes c |}.

Definition throws_at_once {A} (o : outcome A) : bool :=
  match o with Throws _ => true | _ => false end.

Definition is_resolved {A} (o : outcome A) : bool :=
  match o with Resolved _ => true | _ => false end.

(** The requests whose handler never gets to call [res.send]: web3
    throws on the first call the handler makes, before any [.catch] is
    attached; or the id on [GET /tokens/:tokenId] is well-formed and its
    [imageId] read does not return, that chain having no [.catch] at
    all. *)
Definition unanswered (env : Env) (chain : Chain) (r : request) : bool :=
  match r with
  | GetRoot | GetAbi => false
  | GetTotalSupply => throws_at_once (call_totalSupply chain)
  | GetName => throws_at_once (call_name chain)
  | GetMintLimit => throws_at_once (call_mintLimit chain)
  | GetSymbol => throws_at_once (call_symbol chain)
  | GetOwnerTokens o => throws_at_once (call_balanceOf chain o)
  | GetOwnerBalance o => throws_at_once (call_balanceOf chain o)
  | GetToken t => match_digits t && negb (is_resolved (call_imageId chain t))
  | GetTokenURI t => throws_at_once (call_tokenURI chain t)
  | PostTokensNew to =>
      throws_at_once (mint_estimateGas chain (mint_method env chain to))
  end.

(** The index reads the loop of [GET /:ownerAddress/tokens] gets to make:
    all of them, unless one throws, which ends the loop there. *)
Fixpoint issued {A} (g : N -> outcome A) (l : list N) : list N :=
  match l with
  | [] => []
  | i :: r => i :: match g i with Throws _ => [] | _ => issued g r end
  end.

Fixpoint first_throw {A} (g : N -> outcome A) (l : list N) : option JsError :=
  match l with
  | [] => None
  | i :: r => match g i with Throws e => Some e | _ => first_throw g r end
  end.

Definition with_tokenURI (c : Chain) (f : string -> outcome string) : Chain :=
  {| eth_getAccounts := eth_getAccounts c; eth_getBalance := eth_getBalance c;
     net_getId := net_getId c; deployed := deployed c;
     call_name := call_name c; call_symbol := call_symbol c;
     call_totalSupply := call_totalSupply c; call_mintLimit := call_mintLimit c;
     call_balanceOf := call_balanceOf c;
     call_tokenOfOwnerByIndex := call_tokenOfOwnerByIndex c;
     call_imageId := call_imageId c; call_tokenURI := f;
     mint_estimateGas := mint_estimateGas c; mint_send := mint_send c;
     randomBytes := randomBytes c |}.

Definition not_an_address : JsError :=
  Error "Given address is not a valid Ethereum address.".

Definition not_a_number : JsError := Error "invalid number value".

(** A node behind a web3 that checks arguments the way web3 does, as far
    as the examples need: an owner must have the length of an address,
    a token id must be all digits. *)
Definition strict_chain : Chain :=
  with_tokenURI
    (with_balanceOf demo_chain
       (fun owner =>
          if Nat.eqb (String.length owner) 42 then Resolved 2%N
          else Throws not_an_address))
    (fun t =>
       if match_digits t then Resolved ("https://api/tokens/" ++ t)
       else Throws not_a_number).

(** The claim on [GET /tokens/:tokenId], read at the server: an id that
    is not all digits gets the invalid-id reply and no call is made. *)
Definition invalid_id_refused (env : Env) (chain : Chain) (tokenId : string)
    (to : option string) (app : App) : Prop :=
  let r := serve env chain GET ["tokens"; tokenId] to app in
  responses (effects_of r) = [invalid_token_id] /\ rpcs (effects_of r) = [].

(** The claim on [GET /tokenURI/:tokenId], read at the server: the id is
    passed to [tokenURI] and the reply is the URI, or the stringified
    error exactly when the call failed. *)
Definition tokenURI_answered (env : Env) (chain : Chain) (tokenId : string)
    (to : option string) (app : App) : Prop :=
  let r := serve env chain GET ["tokenURI"; tokenId] to app in
  rpcs (effects_of r) = [Call "tokenURI" [JStr tokenId]] /\
  responses (effects_of r)
  = [match call_tokenURI chain tokenId with
     | Resolved uri => JObj [("tokenURI", JStr uri)]
     | Rejected err | Throws err => JObj [("error", JStr (toString err))]
     end].

(** The read a handler starts with, for the routes that wrap one contract
    read and answer with its value. *)
Definition first_read_fails (chain : Chain) (r : request) (e : JsError) : Prop :=
  match r with
  | GetTotalSupply => call_totalSupply chain = Rejected e
  | GetName => call_name chain = Rejected e
  | GetMintLimit => call_mintLimit chain = Rejected e
  | GetSymbol => call_symbol chain = Rejected e
  | GetOwnerTokens o => call_balanceOf chain o = Rejected e
  | GetOwnerBalance o => call_balanceOf chain o = Rejected e
  | _ => False
  end.


(** Ticks and replies of a history. *)
Definition is_tick (e : RefreshLoop.event) : bool :=
  match e with RefreshLoop.TimerFires _ => true | _ => false end.

Definition ticks_of (evs : list RefreshLoop.event) : nat :=
  List.length (filter is_tick evs).

Definition replies_of (evs : list RefreshLoop.event) : nat :=
  List.length (filter (fun e => negb (is_tick e)) evs).

(** The times at which the timer fired, oldest first. *)
Definition tick_times (evs : list RefreshLoop.event) : list Z :=
  map RefreshLoop.time_of (filter is_tick evs).

(** The value of the last successful reply of a history, or [b0] when
    there is none. *)
Fixpoint last_resolved (evs : list RefreshLoop.event) (b0 : option string)
  : option string :=
  match evs with
  | [] => b0
  | RefreshLoop.BalanceSettles _ _ (Resolved b) :: r => last_resolved r (Some b)
  | _ :: r => last_resolved r b0
  end.

(** [n] ticks, each as early as the timer allows, and no reply. *)
Fixpoint silent_ticks (n : nat) (t : Z) : list RefreshLoop.event :=
  match n with
  | O => []
  | S k => RefreshLoop.TimerFires (t + RefreshLoop.period)
           :: silent_ticks k (t + RefreshLoop.period)
  end.

(** Successive times are at least [gap] apart, the first one at least
    [gap] after [t]. *)
Fixpoint spaced (gap t : Z) (l : list Z) : Prop :=
  match l with
  | [] => True
  | x :: r => (t + gap <= x)%Z /\ spaced gap x r
  end.

(** Query ids waiting for a reply. *)
Definition waiting_ids (st : RefreshLoop.state) : list nat :=
  map RefreshLoop.qid (RefreshLoop.inflight st).

(** Ids waiting are distinct and were all handed out already. *)
Definition ids_fresh (st : RefreshLoop.state) : Prop :=
  NoDup (waiting_ids st) /\
  Forall (fun i => (i < RefreshLoop.next_qid st)%nat) (waiting_ids st).

(** Every balance request of the history so far was made for account
    [acct]: those still waiting and those recorded in the trace. *)
Definition asks_only_for (acct : option string) (st : RefreshLoop.state) : Prop :=
  Forall (fun q => RefreshLoop.account q = acct) (RefreshLoop.inflight st) /\
  Forall (fun e => match e with
                   | Web3 m args => m = "eth.getBalance" /\ args = [opt_str acct]
                   | Call _ _ | EstimateGas _ | Send _ _ => False
                   | _ => True
                   end) (RefreshLoop.trace st).
(* ================================================================== *)
(** * Properties *)

(** ** Number rendering *)

Section Rendering.

Lemma all_digits_string_of_uint (d : Decimal.uint) :
  all_digits (NilEmpty.string_of_uint d) = true.
Proof. induction d; simpl; auto. Qed.

Lemma to_uint_nonnil (n : N) : N.to_uint n <> Decimal.Nil.
Proof.
  destruct n as [|p]; simpl.
  - discriminate.
  - apply DecimalPos.Unsigned.to_uint_nonnil.
Qed.

(** A decimal rendering is one or more digits. *)
Lemma match_digits_toString10 (n : N) : match_digits (toString10 n) = true.
Proof.
  unfold toString10, NilZero.string_of_uint.
  pose proof (to_uint_nonnil n) as Hn.
  pose proof (all_digits_string_of_uint (N.to_uint n)) as Hd.
  destruct (N.to_uint n); try contradiction; simpl in *; exact Hd.
Qed.

(** Reading the rendering back gives the number. *)
Lemma parseDecimal_toString10 (n : N) : parseDecimal (toString10 n) = Some n.
Proof.
  unfold parseDecimal, toString10.
  rewrite NilZero.usu by apply to_uint_nonnil.
  simpl. now rewrite DecimalN.Unsigned.of_to.
Qed.

Lemma toString10_inj (n m : N) : toString10 n = toString10 m -> n = m.
Proof.
  intros H. apply (f_equal parseDecimal) in H.
  rewrite !parseDecimal_toString10 in H. congruence.
Qed.

Lemma hex_value_digit (b : byte) :
  hex_value (hex_digit (Byte.to_N b / 16)) = Some (Byte.to_N b / 16)%N /\
  hex_value (hex_digit (Byte.to_N b mod 16)) = Some (Byte.to_N b mod 16)%N.
Proof. destruct b; split; reflexivity. Qed.

Lemma nibbles (b : byte) (acc : N) :
  ((acc * 16 + Byte.to_N b / 16) * 16 + Byte.to_N b mod 16
   = acc * 256 + Byte.to_N b)%N.
Proof.
  pose proof (N.div_mod (Byte.to_N b) 16) as H.
  assert (16 <> 0)%N as H16 by discriminate.
  specialize (H H16). lia.
Qed.

(** Parsing the hex rendering of bytes gives their big-endian value. *)
Lemma hex_digits_value_bytes (bs : list byte) (acc : N) :
  hex_digits_value (hex_of_bytes bs) acc
  = Some (fold_left (fun a b => a * 256 + Byte.to_N b)%N bs acc).
Proof.
  revert acc. induction bs as [|b r IH]; intros acc; simpl.
  - reflexivity.
  - destruct (hex_value_digit b) as [Hh Hl].
    rewrite Hh, Hl, IH. now rewrite nibbles.
Qed.

(** [randomHex] always yields text that [hexToNumberString] accepts, and
    the decimal string denotes the number the random bytes spell. *)
Lemma hexToNumberString_randomHex (rng : nat -> byte) (size : nat) :
  hexToNumberString (randomHex rng size)
  = Some (toString10 (bytes_value (map rng (seq 0 size)))).
Proof.
  unfold randomHex, hexToNumberString, bytes_value. simpl.
  now rewrite hex_digits_value_bytes.
Qed.

Lemma length_hex_of_bytes (bs : list byte) :
  String.length (hex_of_bytes bs) = (2 * List.length bs)%nat.
Proof. induction bs; simpl; lia. Qed.

(** [randomHex(32)] is ["0x"] and 64 hex digits. *)
Lemma length_randomHex (rng : nat -> byte) (size : nat) :
  String.length (randomHex rng size) = (2 + 2 * size)%nat.
Proof.
  unfold randomHex. simpl.
  now rewrite length_hex_of_bytes, length_map, length_seq.
Qed.

(** A 0x-prefixed string never matches [/^\d+$/]. *)
Lemma match_digits_randomHex (rng : nat -> byte) (size : nat) :
  match_digits (randomHex rng size) = false.
Proof. reflexivity. Qed.

End Rendering.

(* ================================================================== *)
(** ** Minting: [POST /tokens/new] *)

Ltac run_M :=
  unfold catch_, then_, try_catch, bind, call, res_send, emit, await, this,
         throw, ret, promise_of, send_callback; simpl.

Lemma hexToNumberString_generated (chain : Chain) :
  hexToNumberString (generated_tokenId chain)
  = Some (generated_tokenIdString chain).
Proof. apply hexToNumberString_randomHex. Qed.

(** The handler, with the id generation evaluated. *)
Lemma post_tokens_new_eq (env : Env) (chain : Chain) (to : option string) :
  post_tokens_new env chain to =
  let method := mint_method env chain to in
  catch_
    (then_ (emit (EstimateGas method) ;; await (mint_estimateGas chain method))
       (fun gas =>
          try_catch
            (a <- this ;;
             emit (Send method (mint_options a gas)) ;;
             match mint_send chain method (mint_options a gas) with
             | SendThrows error => throw error
             | SendCallback error transactionHash =>
                 send_callback (generated_tokenId chain) error transactionHash
             end)
            (fun error =>
               emit (ConsoleError error) ;; res_send (error_body error))))
    (fun error => res_send (error_body error)).
Proof.
  unfold post_tokens_new.
  change (randomHex (randomBytes chain) 32) with (generated_tokenId chain).
  rewrite hexToNumberString_generated. reflexivity.
Qed.

(** Gas estimation rejects: one request, one reply, nothing else. *)
Lemma post_tokens_new_gas_rejected env chain to app e :
  mint_estimateGas chain (mint_method env chain to) = Rejected e ->
  post_tokens_new env chain to app
  = (Resolved tt, app,
     [EstimateGas (mint_method env chain to); ResSend (error_body e)]).
Proof.
  intros H. rewrite post_tokens_new_eq. run_M. rewrite H. reflexivity.
Qed.

(** Gas estimation resolves and the callback brings a hash. *)
Lemma post_tokens_new_hash env chain to app gas h :
  mint_estimateGas chain (mint_method env chain to) = Resolved gas ->
  mint_send chain (mint_method env chain to) (mint_options app gas)
    = SendCallback None (Some h) ->
  h <> "" ->
  post_tokens_new env chain to app
  = (Resolved tt, app,
     [EstimateGas (mint_method env chain to);
      Send (mint_method env chain to) (mint_options app gas);
      ResSend (JObj [("transactionHash", JStr h);
                     ("tokenId", JStr (generated_tokenId chain))])]).
Proof.
  intros Hg Hs Hh. rewrite post_tokens_new_eq. run_M. rewrite Hg. simpl.
  rewrite Hs. simpl.
  destruct (String.eqb_spec h ""); [contradiction|]. reflexivity.
Qed.

(** Whatever the node answers, the handler's first request is the gas
    estimate for the arguments it built. *)
Lemma post_tokens_new_first env chain to app :
  hd_error (effects_of (post_tokens_new env chain to app))
  = Some (EstimateGas (mint_method env chain to)).
Proof.
  rewrite post_tokens_new_eq. run_M.
  destruct (mint_estimateGas chain (mint_method env chain to)); simpl;
    [|reflexivity|reflexivity].
  destruct (mint_send chain (mint_method env chain to) (mint_options app a))
    as [e|[e|] h]; simpl; try reflexivity.
  destruct (truthy h); reflexivity.
Qed.

(** The handler never assigns a field of [this]. *)
Lemma post_tokens_new_state env chain to app :
  state_of (post_tokens_new env chain to app) = app.
Proof.
  rewrite post_tokens_new_eq. run_M.
  destruct (mint_estimateGas chain (mint_method env chain to)); simpl;
    [|reflexivity|reflexivity].
  destruct (mint_send chain (mint_method env chain to) (mint_options app a))
    as [e|[e|] h]; simpl; try reflexivity.
  destruct (truthy h); reflexivity.
Qed.

(** ** Token metadata: [GET /tokens/:tokenId] *)

Lemma match_digits_nonempty (s : string) :
  match_digits s = true -> (s =? "")%string = false.
Proof. destruct s; [discriminate | reflexivity]. Qed.

(** The guard of the handler is the pattern test alone: the empty string
    does not match either. *)
Lemma get_token_guard (s : string) :
  (s =? "")%string || negb (match_digits s) = negb (match_digits s).
Proof. destruct s; reflexivity. Qed.

Lemma get_token_invalid env chain tokenId app :
  match_digits tokenId = false ->
  get_token env chain tokenId app = (Resolved tt, app, [ResSend invalid_token_id]).
Proof.
  intros H. unfold get_token. rewrite get_token_guard, H. reflexivity.
Qed.

Lemma get_token_valid_first env chain tokenId app :
  match_digits tokenId = true ->
  hd_error (effects_of (get_token env chain tokenId app))
  = Some (Call "imageId" [JStr tokenId]).
Proof.
  intros H. unfold get_token. rewrite get_token_guard, H. simpl. run_M.
  destruct (call_imageId chain tokenId); reflexivity.
Qed.

(** ** Token URI: [GET /tokenURI/:tokenId] *)

Lemma get_tokenURI_eq chain tokenId app :
  get_tokenURI chain tokenId app
  = match call_tokenURI chain tokenId with
    | Resolved uri =>
        (Resolved tt, app,
         [Call "tokenURI" [JStr tokenId];
          ResSend (JObj [("tokenURI", JStr uri)])])
    | Rejected err =>
        (Resolved tt, app,
         [Call "tokenURI" [JStr tokenId];
          ResSend (JObj [("error", JStr (toString err))])])
    | Throws e => (Throws e, app, [Call "tokenURI" [JStr tokenId]])
    end.
Proof.
  unfold get_tokenURI. run_M. destruct (call_tokenURI chain tokenId); reflexivity.
Qed.


(** ** Tokens of an owner: [GET /:ownerAddress/tokens] *)

Lemma for_each_issue {A} (f : N -> M (outcome A)) (g : N -> outcome A)
    (h : N -> effect) (l : list N) app :
  (forall x s, f x s = (match g x with
                        | Throws e => Throws e
                        | o => Resolved o
                        end, s, [h x])) ->
  for_each f l app
  = (match first_throw g l with
     | Some e => Throws e
     | None => Resolved (map g l)
     end, app, map h (issued g l)).
Proof.
  intros Hf. induction l as [|x r IH]; simpl.
  - reflexivity.
  - unfold bind. rewrite Hf.
    destruct (g x) as [v|e|e]; simpl; try reflexivity;
      rewrite IH; destruct (first_throw g r); unfold ret; simpl;
      rewrite ?List.app_nil_r; reflexivity.
Qed.

(** The loop of the handler: every read is made, in order, up to the
    first that throws. *)
Lemma for_each_reads (owner : string) (g : N -> outcome N) (l : list N) app :
  for_each (fun i => emit (Call "tokenOfOwnerByIndex" [JStr owner; JNum i]) ;;
                     promise_of (g i)) l app
  = (match first_throw g l with
     | Some e => Throws e
     | None => Resolved (map g l)
     end, app,
     map (fun i => Call "tokenOfOwnerByIndex" [JStr owner; JNum i]) (issued g l)).
Proof.
  apply for_each_issue. intros x s. unfold bind, emit, promise_of.
  destruct (g x); reflexivity.
Qed.

Lemma no_throw_resolved {A} (g : N -> outcome A) (v : N -> A) (l : list N) :
  (forall x, In x l -> g x = Resolved (v x)) ->
  first_throw g l = None /\ issued g l = l.
Proof.
  induction l as [|x r IH]; intros H; simpl; [now split|].
  rewrite (H x) by now left.
  destruct IH as [-> ->]; [|now split].
  intros y Hy. apply H. now right.
Qed.

(** Without a synchronous throw, all the reads are made. *)
Lemma no_throw_all {A} (g : N -> outcome A) (l : list N) :
  (forall x, In x l -> throws_at_once (g x) = false) ->
  first_throw g l = None /\ issued g l = l.
Proof.
  induction l as [|x r IH]; intros H; simpl; [now split|].
  pose proof (H x (or_introl eq_refl)) as Hx.
  destruct IH as [-> ->].
  - intros y Hy. apply H. now right.
  - destruct (g x); simpl in Hx; try discriminate; now split.
Qed.

Lemma promise_all_resolved {A B} (g : A -> outcome B) (v : A -> B) (l : list A) :
  (forall x, In x l -> g x = Resolved (v x)) ->
  promise_all (map g l) = Resolved (map v l).
Proof.
  induction l as [|x r IH]; intros H; simpl.
  - reflexivity.
  - rewrite (H x) by now left. rewrite IH; [reflexivity|].
    intros y Hy. apply H. now right.
Qed.

Lemma promise_all_rejected {A B} (g : A -> outcome B) (l : list A) x e :
  In x l -> g x = Rejected e -> exists e', promise_all (map g l) = Rejected e'.
Proof.
  induction l as [|y r IH]; intros Hin Hx; simpl; [contradiction|].
  destruct Hin as [->|Hin].
  - rewrite Hx. eauto.
  - destruct (g y); [|eauto|eauto].
    destruct (IH Hin Hx) as [e' ->]. eauto.
Qed.

Lemma in_indices (n i : N) : In i (indices n) <-> (i < n)%N.
Proof.
  unfold indices. rewrite in_map_iff. split.
  - intros (k & <- & Hk). apply in_seq in Hk. lia.
  - intros H. exists (N.to_nat i). split; [apply N2Nat.id|].
    apply in_seq. lia.
Qed.

Lemma length_indices (n : N) : List.length (indices n) = N.to_nat n.
Proof. unfold indices. now rewrite length_map, length_seq. Qed.

Lemma nth_indices (n i : N) :
  (i < n)%N -> nth_error (indices n) (N.to_nat i) = Some i.
Proof.
  intros H. unfold indices.
  rewrite nth_error_map, nth_error_seq.
  destruct (Nat.ltb_spec (N.to_nat i) (N.to_nat n)); [|lia].
  simpl. now rewrite N2Nat.id.
Qed.

(** The handler in closed form. *)
Lemma get_owner_tokens_eq chain owner app :
  get_owner_tokens chain owner app
  = match call_balanceOf chain owner with
    | Throws e => (Throws e, app, [Call "balanceOf" [JStr owner]])
    | Rejected e =>
        (Resolved tt, app, [Call "balanceOf" [JStr owner]; ResSend (JErr e)])
    | Resolved n =>
        let read := call_tokenOfOwnerByIndex chain owner in
        (Resolved tt, app,
         Call "balanceOf" [JStr owner]
         :: map (fun i => Call "tokenOfOwnerByIndex" [JStr owner; JNum i])
                (issued read (indices n))
         ++ [ResSend
               match first_throw read (indices n) with
               | Some e => JErr e
               | None =>
                   match promise_all (map read (indices n)) with
                   | Resolved tokens =>
                       JObj [("tokens",
                              JArr (map (fun t => JStr (toString10 t)) tokens))]
                   | Rejected e | Throws e => JErr e
                   end
               end])%list
    end.
Proof.
  unfold get_owner_tokens, catch_.
  unfold then_ at 1. unfold call at 1. unfold bind at 1, emit at 1, await at 1.
  destruct (call_balanceOf chain owner) as [n|e|e]; [|reflexivity|reflexivity].
  unfold bind at 1. rewrite for_each_reads.
  destruct (first_throw (call_tokenOfOwnerByIndex chain owner) (indices n));
    simpl.
  - unfold res_send, emit. simpl. rewrite ?List.app_nil_r. reflexivity.
  - unfold then_, await, res_send, emit.
    destruct (promise_all _); simpl; rewrite ?List.app_nil_r; reflexivity.
Qed.

Lemma responses_app (l1 l2 : list effect) :
  responses (l1 ++ l2) = (responses l1 ++ responses l2)%list.
Proof.
  induction l1 as [|e r IH]; simpl; [reflexivity|].
  destruct (is_response e); simpl; now rewrite IH.
Qed.

Lemma responses_calls {A} (f : A -> string * list json) (l : list A) :
  responses (map (fun x => Call (fst (f x)) (snd (f x))) l) = [].
Proof. induction l; simpl; auto. Qed.

(** ** No handler assigns a field of [this] *)

Lemma handle_state env chain (r : request) app :
  state_of (handle env chain r app) = app.
Proof.
  destruct r; simpl.
  - reflexivity.
  - reflexivity.
  - unfold get_totalSupply. run_M. destruct (call_totalSupply chain); reflexivity.
  - unfold get_name. run_M. destruct (call_name chain); reflexivity.
  - unfold get_mintLimit. run_M. destruct (call_mintLimit chain); reflexivity.
  - unfold get_symbol. run_M. destruct (call_symbol chain); reflexivity.
  - rewrite get_owner_tokens_eq.
    destruct (call_balanceOf chain ownerAddress); reflexivity.
  - unfold get_owner_balance. run_M.
    destruct (call_balanceOf chain ownerAddress); reflexivity.
  - unfold get_token.
    destruct ((tokenId =? "")%string || negb (match_digits tokenId));
      [reflexivity|].
    run_M. destruct (call_imageId chain tokenId); reflexivity.
  - rewrite get_tokenURI_eq.
    destruct (call_tokenURI chain tokenId); reflexivity.
  - apply post_tokens_new_state.
Qed.

(* ================================================================== *)
(** * Main results *)

(** C1 (as the code has it).  When gas estimation succeeds and the send
    callback brings a transaction hash, [POST /tokens/new] answers
    [{transactionHash, tokenId}] where [tokenId] is the generated value
    itself: the 0x-prefixed hexadecimal string of the 32 random bytes (66
    characters, the very argument given to [mintWithTokenURI]).  That
    string is not a decimal string; its decimal rendering exists and is
    used in the token URI only. *)
Theorem mint_reply_hex env chain to app gas h :
  mint_estimateGas chain (mint_method env chain to) = Resolved gas ->
  mint_send chain (mint_method env chain to) (mint_options app gas)
    = SendCallback None (Some h) ->
  h <> "" ->
  let tokenId := randomHex (randomBytes chain) 32 in
  responses (effects_of (post_tokens_new env chain to app))
    = [JObj [("transactionHash", JStr h); ("tokenId", JStr tokenId)]]
  /\ tokenId = "0x" ++ hex_of_bytes (map (randomBytes chain) (seq 0 32))
  /\ String.length tokenId = 66%nat
  /\ mint_tokenId (mint_method env chain to) = tokenId
  /\ match_digits tokenId = false
  /\ hexToNumberString tokenId
     = Some (toString10 (bytes_value (map (randomBytes chain) (seq 0 32)))).
Proof.
  intros Hg Hs Hh tokenId.
  rewrite (post_tokens_new_hash env chain to app Hg Hs Hh).
  split; [reflexivity|]. split; [reflexivity|].
  split; [apply length_randomHex|]. split; [reflexivity|].
  split; [reflexivity|]. apply hexToNumberString_randomHex.
Qed.

Lemma mint_reply_hex_witness :
  responses (effects_of (post_tokens_new demo_env demo_chain (Some "0x70") demo_app))
  = [JObj [("transactionHash", JStr "0xbeef");
           ("tokenId",
            JStr "0x000000000000000000000000000000000000000000000000000000000000002a")]].
Proof.
  refine (proj1 (@mint_reply_hex demo_env demo_chain (Some "0x70") demo_app
                   21000%N "0xbeef" _ _ _)).
  - reflexivity.
  - reflexivity.
  - discriminate.
Defined.

(** C1, as stated, fails: on a node where the estimate and the send both
    succeed, the [tokenId] of the reply is the hex string, so no decimal
    string stands in the reply. *)
Lemma mint_reply_decimal_counterexample :
  mint_estimateGas demo_chain (mint_method demo_env demo_chain (Some "0x70"))
    = Resolved 21000%N /\
  mint_send demo_chain (mint_method demo_env demo_chain (Some "0x70"))
            (mint_options demo_app 21000)
    = SendCallback None (Some "0xbeef") /\
  ~ mint_reply_decimal demo_env demo_chain (Some "0x70") demo_app.
Proof.
  split; [reflexivity|]. split; [reflexivity|].
  intros (h & d & Hd & Hr).
  vm_compute in Hr.
  injection Hr as _ Hid. subst d. discriminate Hd.
Qed.

(** C4.  When the [estimateGas] promise rejects with [e], the handler of
    [POST /tokens/new] answers exactly [{error: e.toString()}], never
    calls [method.send] (the gas estimate is its only request), and
    leaves every field of the application object as it was. *)
Theorem mint_gas_failure env chain to app e :
  mint_estimateGas chain (mint_method env chain to) = Rejected e ->
  let r := post_tokens_new env chain to app in
  responses (effects_of r) = [JObj [("error", JStr (toString e))]]
  /\ filter is_send (effects_of r) = []
  /\ rpcs (effects_of r) = [EstimateGas (mint_method env chain to)]
  /\ state_of r = app.
Proof.
  intros H r. subst r.
  rewrite (post_tokens_new_gas_rejected env chain to app H).
  repeat split.
Qed.

Lemma mint_gas_failure_witness :
  let chain := with_estimateGas demo_chain (Rejected rpc_down) in
  let r := post_tokens_new demo_env chain (Some "0x70") demo_app in
  responses (effects_of r) = [JObj [("error", JStr "Error: connection not open")]]
  /\ filter is_send (effects_of r) = []
  /\ rpcs (effects_of r)
     = [EstimateGas (mint_method demo_env chain (Some "0x70"))]
  /\ state_of r = demo_app.
Proof.
  intros chain.
  apply (@mint_gas_failure demo_env chain (Some "0x70") demo_app rpc_down).
  reflexivity.
Defined.

(** C5.  When [balanceOf(owner)] returns [n] and each
    [tokenOfOwnerByIndex(owner, i)], [i] in [0, n), returns a value
    [tok i], [GET /:ownerAddress/tokens] answers [{tokens: [...]}] with
    exactly [n] elements, the [i]-th being that value (as web3 renders a
    uint256: its decimal string). *)
Theorem owner_tokens_complete chain owner app (n : N) (tok : N -> N) :
  call_balanceOf chain owner = Resolved n ->
  (forall i, (i < n)%N -> call_tokenOfOwnerByIndex chain owner i = Resolved (tok i)) ->
  exists tokens,
    responses (effects_of (get_owner_tokens chain owner app))
      = [JObj [("tokens", JArr tokens)]]
    /\ List.length tokens = N.to_nat n
    /\ forall i, (i < n)%N ->
         nth_error tokens (N.to_nat i) = Some (JStr (toString10 (tok i))).
Proof.
  intros Hn Htok.
  exists (map (fun i => JStr (toString10 (tok i))) (indices n)).
  split; [|split].
  - assert (forall i, In i (indices n) ->
                      call_tokenOfOwnerByIndex chain owner i = Resolved (tok i))
      as Hall by (intros i Hi; apply Htok; now apply in_indices).
    destruct (no_throw_resolved _ tok (indices n) Hall) as [Hnone Hiss].
    rewrite get_owner_tokens_eq, Hn. unfold effects_of. simpl.
    rewrite Hnone, Hiss, (promise_all_resolved _ tok _ Hall).
    rewrite responses_app.
    rewrite (responses_calls
               (fun i => ("tokenOfOwnerByIndex", [JStr owner; JNum i]))).
    simpl. now rewrite map_map.
  - now rewrite length_map, length_indices.
  - intros i Hi. rewrite nth_error_map, (nth_indices Hi). reflexivity.
Qed.

Lemma owner_tokens_complete_witness :
  exists tokens,
    responses (effects_of (get_owner_tokens demo_chain "0x0123" demo_app))
      = [JObj [("tokens", JArr tokens)]]
    /\ List.length tokens = 2%nat
    /\ forall i, (i < 2)%N ->
         nth_error tokens (N.to_nat i) = Some (JStr (toString10 (i + 10))).
Proof.
  apply (@owner_tokens_complete demo_chain "0x0123" demo_app 2%N
           (fun i => (i + 10)%N)).
  - reflexivity.
  - intros i _. reflexivity.
Defined.

(** When one of the index reads rejects, the reply is the raw error and
    not a token list. *)
Lemma owner_tokens_index_failure chain owner app (n i : N) e :
  call_balanceOf chain owner = Resolved n ->
  (i < n)%N ->
  call_tokenOfOwnerByIndex chain owner i = Rejected e ->
  exists e', responses (effects_of (get_owner_tokens chain owner app)) = [JErr e'].
Proof.
  intros Hn Hi He.
  destruct (promise_all_rejected (call_tokenOfOwnerByIndex chain owner)
              (indices n) i (proj2 (in_indices n i) Hi) He) as [e' He'].
  rewrite get_owner_tokens_eq, Hn. unfold effects_of. simpl.
  rewrite He', responses_app.
  rewrite (responses_calls
             (fun i => ("tokenOfOwnerByIndex", [JStr owner; JNum i]))).
  destruct (first_throw (call_tokenOfOwnerByIndex chain owner) (indices n));
    simpl; eauto.
Qed.

(** *** Which handler a path reaches *)

Ltac route_tac :=
  unfold dispatch, routes; cbn -[lower String.eqb];
  change (lower "tokens") with "tokens";
  change (lower "balance") with "balance";
  change ("tokens" =? "")%string with false;
  change ("tokenURI" =? "")%string with false;
  cbv iota.

Lemma dispatch_tokens_id (tokenId : string) (to : option string) :
  tokenId <> "" ->
  lower tokenId <> "tokens" -> lower tokenId <> "balance" ->
  dispatch GET ["tokens"; tokenId] to = Some (GetToken tokenId).
Proof.
  intros H0 H1 H2. apply String.eqb_neq in H0. apply String.eqb_neq in H1.
  apply String.eqb_neq in H2.
  route_tac. rewrite H0, H1, H2. reflexivity.
Qed.

Lemma dispatch_tokenURI_id (tokenId : string) (to : option string) :
  tokenId <> "" ->
  lower tokenId <> "tokens" -> lower tokenId <> "balance" ->
  dispatch GET ["tokenURI"; tokenId] to = Some (GetTokenURI tokenId).
Proof.
  intros H0 H1 H2. apply String.eqb_neq in H0. apply String.eqb_neq in H1.
  apply String.eqb_neq in H2.
  route_tac. rewrite H0, H1, H2. reflexivity.
Qed.

(** The two earlier routes with a parameter in first place take every
    two-segment path that ends in [tokens] or [balance], whatever its
    first segment. *)
Lemma dispatch_owner_first (first last : string) (to : option string) :
  first <> "" ->
  (lower last = "tokens" ->
   dispatch GET [first; last] to = Some (GetOwnerTokens first)) /\
  (lower last = "balance" ->
   dispatch GET [first; last] to = Some (GetOwnerBalance first)).
Proof.
  intros H0. apply String.eqb_neq in H0.
  unfold dispatch, routes. cbn -[lower String.eqb].
  change (lower "tokens") with "tokens". change (lower "balance") with "balance".
  rewrite H0.
  split; intros H; rewrite H.
  - destruct (lower first =? lower "abi")%string,
             (lower first =? lower "totalSupply")%string,
             (lower first =? lower "name")%string,
             (lower first =? lower "mintLimit")%string,
             (lower first =? lower "symbol")%string; reflexivity.
  - destruct (lower first =? lower "abi")%string,
             (lower first =? lower "totalSupply")%string,
             (lower first =? lower "name")%string,
             (lower first =? lower "mintLimit")%string,
             (lower first =? lower "symbol")%string; reflexivity.
Qed.

(** C6 (as the code has it).  For every [tokenId] that does not match
    [/^\d+$/] and is not [tokens] or [balance] in any letter case,
    [GET /tokens/<tokenId>] reaches the handler of [/tokens/:tokenId],
    which answers [{error: {message: 'Invalid token id passed'}}] and
    makes no contract call: the reply is all it does.  (The paths
    [/tokens/tokens] and [/tokens/balance] belong to the routes
    [/:ownerAddress/tokens] and [/:ownerAddress/balance], registered
    earlier; an empty segment is no parameter.) *)
Theorem token_id_refused_when_routed env chain tokenId to app :
  match_digits tokenId = false ->
  tokenId <> "" ->
  lower tokenId <> "tokens" ->
  lower tokenId <> "balance" ->
  dispatch GET ["tokens"; tokenId] to = Some (GetToken tokenId)
  /\ let r := serve env chain GET ["tokens"; tokenId] to app in
     responses (effects_of r)
       = [JObj [("error", JObj [("message", JStr "Invalid token id passed")])]]
     /\ rpcs (effects_of r) = []
     /\ effects_of r = [ResSend invalid_token_id]
     /\ result_of r = Resolved tt.
Proof.
  intros H H0 H1 H2. split; [now apply dispatch_tokens_id|].
  unfold serve. rewrite (@dispatch_tokens_id tokenId to H0 H1 H2).
  cbn [handle]. rewrite (get_token_invalid env chain tokenId app H).
  repeat split.
Qed.

Lemma token_id_refused_when_routed_witness :
  dispatch GET ["tokens"; "12ab"] None = Some (GetToken "12ab")
  /\ let r := serve demo_env strict_chain GET ["tokens"; "12ab"] None demo_app in
     responses (effects_of r)
       = [JObj [("error", JObj [("message", JStr "Invalid token id passed")])]]
     /\ rpcs (effects_of r) = []
     /\ effects_of r = [ResSend invalid_token_id]
     /\ result_of r = Resolved tt.
Proof.
  apply (@token_id_refused_when_routed demo_env strict_chain "12ab" None
           demo_app).
  - reflexivity.
  - discriminate.
  - discriminate.
  - discriminate.
Defined.

(** C6, as stated, fails: [tokens] does not match [/^\d+$/], yet
    [GET /tokens/tokens] is handled by the route [/:ownerAddress/tokens]
    with owner [tokens]: [balanceOf] is called with it and the invalid-id
    reply is not sent.  This is so whatever the contract call does; in
    the run shown web3 refuses the owner, which is no address. *)
Lemma token_id_shadowed_counterexample :
  match_digits "tokens" = false
  /\ dispatch GET ["tokens"; "tokens"] None = Some (GetOwnerTokens "tokens")
  /\ effects_of (serve demo_env strict_chain GET ["tokens"; "tokens"] None demo_app)
     = [Call "balanceOf" [JStr "tokens"]]
  /\ ~ invalid_id_refused demo_env strict_chain "tokens" None demo_app
  /\ ~ invalid_id_refused demo_env demo_chain "tokens" None demo_app.
Proof.
  split; [reflexivity|]. split; [reflexivity|]. split; [reflexivity|].
  split; intros [H _]; vm_compute in H; discriminate H.
Qed.

(** C7.  For every draw of the 32 random bytes, the decimal rendering of
    the generated id matches [/^\d+$/], is the text that follows
    [{API base}/tokens/] in the token URI handed to [mintWithTokenURI],
    denotes the number the bytes spell, passes the check of
    [GET /tokens/:tokenId], and is forwarded as it is by
    [GET /tokenURI/:tokenId]. *)
Theorem token_id_roundtrip env chain to app :
  exists tokenIdString,
    hexToNumberString (randomHex (randomBytes chain) 32) = Some tokenIdString
    /\ match_digits tokenIdString = true
    /\ hd_error (effects_of (post_tokens_new env chain to app))
       = Some (EstimateGas
                 {| mint_to := to;
                    mint_tokenId := randomHex (randomBytes chain) 32;
                    mint_tokenURI :=
                      or_default (API_URL env)
                                 "https://example-dapp-1-api.bitski.com"
                      ++ "/tokens/" ++ tokenIdString |})
    /\ parseDecimal tokenIdString
       = Some (bytes_value (map (randomBytes chain) (seq 0 32)))
    /\ hd_error (effects_of (get_token env chain tokenIdString app))
       = Some (Call "imageId" [JStr tokenIdString])
    /\ rpcs (effects_of (get_tokenURI chain tokenIdString app))
       = [Call "tokenURI" [JStr tokenIdString]].
Proof.
  exists (generated_tokenIdString chain).
  split; [apply hexToNumberString_randomHex|].
  split; [apply match_digits_toString10|].
  split; [apply post_tokens_new_first|].
  split; [apply parseDecimal_toString10|].
  split.
  - apply get_token_valid_first, match_digits_toString10.
  - rewrite get_tokenURI_eq.
    destruct (call_tokenURI chain (generated_tokenIdString chain)); reflexivity.
Qed.

(** C10 (as the code has it).  For every [tokenId] other than [tokens]
    and [balance] in any letter case, matching [/^\d+$/] or not,
    [GET /tokenURI/<tokenId>] reaches the handler of
    [/tokenURI/:tokenId], which tests nothing and passes the string as it
    is to the contract's [tokenURI] call, its only call.  When the
    promise of that call rejects with [err] the reply is
    [{error: err.toString()}], when it resolves with [uri] the reply is
    [{tokenURI: uri}], and an error body is sent exactly when the promise
    rejected.  When web3 throws on the argument instead of returning a
    promise, the exception leaves the handler, which sends nothing. *)
Theorem tokenURI_passthrough_when_routed env chain tokenId to app :
  tokenId <> "" ->
  lower tokenId <> "tokens" ->
  lower tokenId <> "balance" ->
  dispatch GET ["tokenURI"; tokenId] to = Some (GetTokenURI tokenId)
  /\ let r := serve env chain GET ["tokenURI"; tokenId] to app in
     hd_error (effects_of r) = Some (Call "tokenURI" [JStr tokenId])
     /\ rpcs (effects_of r) = [Call "tokenURI" [JStr tokenId]]
     /\ match call_tokenURI chain tokenId with
        | Resolved uri =>
            responses (effects_of r) = [JObj [("tokenURI", JStr uri)]]
            /\ result_of r = Resolved tt
        | Rejected err =>
            responses (effects_of r) = [JObj [("error", JStr (toString err))]]
            /\ result_of r = Resolved tt
        | Throws e =>
            responses (effects_of r) = [] /\ result_of r = Throws e
        end
     /\ ((exists err, call_tokenURI chain tokenId = Rejected err)
         <-> (exists s, responses (effects_of r) = [JObj [("error", JStr s)]])).
Proof.
  intros H0 H1 H2. split; [now apply dispatch_tokenURI_id|].
  unfold serve. rewrite (@dispatch_tokenURI_id tokenId to H0 H1 H2).
  cbn [handle]. rewrite get_tokenURI_eq.
  destruct (call_tokenURI chain tokenId) as [uri|err|e];
    unfold effects_of, result_of; simpl;
    (split; [reflexivity|]); (split; [reflexivity|]);
    (split; [split; reflexivity|]); split.
  - intros [err H]. discriminate H.
  - intros [s H]. discriminate H.
  - intros _. eauto.
  - intros _. eauto.
  - intros [err H]. discriminate H.
  - intros [s H]. discriminate H.
Qed.

Lemma tokenURI_passthrough_when_routed_witness :
  dispatch GET ["tokenURI"; "12ab"] None = Some (GetTokenURI "12ab")
  /\ hd_error (effects_of
                 (serve demo_env (with_tokenURI demo_chain
                                    (fun _ => Rejected rpc_down))
                        GET ["tokenURI"; "12ab"] None demo_app))
     = Some (Call "tokenURI" [JStr "12ab"])
  /\ responses (effects_of
                  (serve demo_env (with_tokenURI demo_chain
                                     (fun _ => Rejected rpc_down))
                         GET ["tokenURI"; "12ab"] None demo_app))
     = [JObj [("error", JStr "Error: connection not open")]].
Proof.
  destruct (@tokenURI_passthrough_when_routed demo_env
              (with_tokenURI demo_chain (fun _ => Rejected rpc_down))
              "12ab" None demo_app) as (Hd & Hh & _ & Hr & _).
  - discriminate.
  - discriminate.
  - discriminate.
  - split; [exact Hd | split; [exact Hh | exact (proj1 Hr)]].
Defined.

(** C10, as stated, fails twice.  For [12ab], an id web3 cannot encode,
    the [tokenURI] call throws instead of returning a promise: the call
    failed and yet the handler sends no error body, indeed nothing.  And
    [GET /tokenURI/tokens] never reaches the handler: the route
    [/:ownerAddress/tokens] takes it, with owner [tokenURI], whatever
    the contract answers. *)
Lemma tokenURI_unanswered_counterexample :
  call_tokenURI strict_chain "12ab" = Throws not_a_number
  /\ serve demo_env strict_chain GET ["tokenURI"; "12ab"] None demo_app
     = (Throws not_a_number, demo_app, [Call "tokenURI" [JStr "12ab"]])
  /\ ~ tokenURI_answered demo_env strict_chain "12ab" None demo_app
  /\ dispatch GET ["tokenURI"; "tokens"] None = Some (GetOwnerTokens "tokenURI")
  /\ ~ tokenURI_answered demo_env strict_chain "tokens" None demo_app
  /\ ~ tokenURI_answered demo_env demo_chain "tokens" None demo_app.
Proof.
  split; [reflexivity|]. split; [reflexivity|]. split; [|split; [|split]].
  - intros [_ H]. vm_compute in H. discriminate H.
  - reflexivity.
  - intros [H _]. vm_compute in H. discriminate H.
  - intros [H _]. vm_compute in H. discriminate H.
Qed.

(** ** Start-up *)

(** With every request answered, [start] assigns the five fields, starts
    the server, arms the refresh timer and subscribes. *)
Lemma start_ok chain port app a0 rest bal id c n :
  eth_getAccounts chain = Resolved (a0 :: rest) ->
  eth_getBalance chain (Some a0) = Resolved bal ->
  net_getId chain = Resolved id ->
  deployed chain id = Resolved c ->
  call_name chain = Resolved n ->
  start chain port app
  = (Resolved tt,
     {| currentAccount := Some a0; balance := Some bal; networkId := Some id;
        contract := Some c; name := Some n |},
     [ConsoleLog [JStr "starting app..."]; Web3 "eth.getAccounts" [];
      Web3 "eth.getBalance" [JStr a0]; Web3 "eth.net.getId" [];
      Call "name" []; UseCors; Listen port;
      SetTimeout 60000; SubscribeTransfer]).
Proof.
  intros Ha Hb Hi Hc Hn. unfold start, createServer, updateBalance,
    watchTransferEvents, assign. run_M.
  rewrite Ha. simpl. rewrite Hb. simpl. rewrite Hi. simpl. rewrite Hc. simpl.
  rewrite Hn. reflexivity.
Qed.

Ltac fatal_start pre e :=
  split; [reflexivity|]; split; [reflexivity|];
  exists pre, e; split; [reflexivity|]; simpl; intuition discriminate.

(** C3 (as the code has it).  A failing [name()] read at start-up is
    fatal, like any other start-up failure: [start] ends by logging an
    error with [console.error] and calling [process.exit(1)] (the error
    logged is the one of [name()] whenever that read was reached), the
    server is never started, no timer is armed, no subscription is made,
    and [this.name] keeps the value it had. *)
Theorem start_name_failure chain port app e :
  call_name chain = Rejected e ->
  let r := start chain port app in
  existsb is_serving (effects_of r) = false
  /\ name (state_of r) = name app
  /\ exists pre e',
       effects_of r = (pre ++ [ConsoleError e'; Exit 1])%list
       /\ (In (Call "name" []) pre -> e' = e).
Proof.
  intros Hn r. subst r.
  unfold start, createServer, updateBalance, watchTransferEvents, assign.
  run_M.
  destruct (eth_getAccounts chain) as [[|a0 rest]|e0|e0]; simpl.
  - fatal_start [ConsoleLog [JStr "starting app..."]; Web3 "eth.getAccounts" []]
                (Error "No account found").
  - destruct (eth_getBalance chain (Some a0)) as [bal|e1|e1]; simpl.
    + destruct (net_getId chain) as [id|e2|e2]; simpl.
      * destruct (deployed chain id) as [c|e3|e3]; simpl.
        -- rewrite Hn. simpl.
           split; [reflexivity|]. split; [reflexivity|].
           exists [ConsoleLog [JStr "starting app..."];
                   Web3 "eth.getAccounts" []; Web3 "eth.getBalance" [JStr a0];
                   Web3 "eth.net.getId" []; Call "name" []], e.
           split; reflexivity.
        -- fatal_start [ConsoleLog [JStr "starting app..."];
                        Web3 "eth.getAccounts" [];
                        Web3 "eth.getBalance" [JStr a0];
                        Web3 "eth.net.getId" []] e3.
        -- fatal_start [ConsoleLog [JStr "starting app..."];
                        Web3 "eth.getAccounts" [];
                        Web3 "eth.getBalance" [JStr a0];
                        Web3 "eth.net.getId" []] e3.
      * fatal_start [ConsoleLog [JStr "starting app..."];
                     Web3 "eth.getAccounts" [];
                     Web3 "eth.getBalance" [JStr a0];
                     Web3 "eth.net.getId" []] e2.
      * fatal_start [ConsoleLog [JStr "starting app..."];
                     Web3 "eth.getAccounts" [];
                     Web3 "eth.getBalance" [JStr a0];
                     Web3 "eth.net.getId" []] e2.
    + fatal_start [ConsoleLog [JStr "starting app..."];
                   Web3 "eth.getAccounts" [];
                   Web3 "eth.getBalance" [JStr a0]] e1.
    + fatal_start [ConsoleLog [JStr "starting app..."];
                   Web3 "eth.getAccounts" [];
                   Web3 "eth.getBalance" [JStr a0]] e1.
  - fatal_start [ConsoleLog [JStr "starting app..."]; Web3 "eth.getAccounts" []]
                e0.
  - fatal_start [ConsoleLog [JStr "starting app..."]; Web3 "eth.getAccounts" []]
                e0.
Qed.

Lemma start_name_failure_witness :
  let r := start (with_name demo_chain (Rejected rpc_down)) 3000 new_App in
  existsb is_serving (effects_of r) = false
  /\ name (state_of r) = None
  /\ exists pre e',
       effects_of r = (pre ++ [ConsoleError e'; Exit 1])%list
       /\ (In (Call "name" []) pre -> e' = rpc_down).
Proof.
  apply (@start_name_failure (with_name demo_chain (Rejected rpc_down))
           3000%N new_App rpc_down).
  reflexivity.
Defined.

(** C3, as stated, fails: on a node that answers everything but the
    [name()] read, start-up does not go through; the process exits. *)
Lemma start_name_failure_counterexample :
  call_name (with_name demo_chain (Rejected rpc_down)) = Rejected rpc_down /\
  effects_of (start (with_name demo_chain (Rejected rpc_down)) 3000 new_App)
  = [ConsoleLog [JStr "starting app..."]; Web3 "eth.getAccounts" [];
     Web3 "eth.getBalance" [JStr "0xa11ce"]; Web3 "eth.net.getId" [];
     Call "name" []; ConsoleError rpc_down; Exit 1] /\
  ~ startup_succeeds (with_name demo_chain (Rejected rpc_down)) 3000 new_App.
Proof.
  split; [reflexivity|]. split; [reflexivity|].
  intros [_ H]. vm_compute in H. discriminate H.
Qed.

(* ================================================================== *)
(** ** The refresh loop *)

Section Refresh.
Import RefreshLoop.
Local Open Scope Z_scope.

Lemma single_chain_boot a t0 : single_chain (boot a t0).
Proof. exists (t0 + period). split; [reflexivity | constructor]. Qed.

Lemma Forall_remove_query (P : query -> Prop) q l :
  Forall P l -> Forall P (remove_query q l).
Proof.
  unfold remove_query. intros H. apply Forall_forall. intros x Hx.
  apply filter_In in Hx. rewrite Forall_forall in H. now apply H.
Qed.

Lemma length_remove_query q l :
  (List.length (remove_query q l) <= List.length l)%nat.
Proof. unfold remove_query. apply filter_length_le. Qed.

(** A tick sends one query and re-arms the timer in the same turn; it
    does not look at the queries still waiting. *)
Lemma tick_issues_and_rearms t st st' :
  step (TimerFires t) st = Some st' ->
  timers st' = (tl (timers st) ++ [t + period])%list /\
  inflight st' = (inflight st ++
                  [{| qid := next_qid st; issued := t;
                      account := currentAccount (app st) |}])%list /\
  app st' = app st.
Proof.
  unfold step. simpl. destruct (t <? clock st); [discriminate|].
  destruct (timers st) as [|due rest] eqn:E; [discriminate|].
  destruct (due <=? t); [|discriminate].
  intros [= <-]. simpl. rewrite E. split; [reflexivity|]. split; reflexivity.
Qed.

(** A reply touches neither the timers nor the other queries. *)
Lemma settle_step t q reply st st' :
  step (BalanceSettles t q reply) st = Some st' ->
  timers st' = timers st /\ inflight st' = remove_query q (inflight st).
Proof.
  unfold step. simpl. destruct (t <? clock st); [discriminate|].
  destruct (find_query q (inflight st)); [|discriminate].
  destruct reply; [| |discriminate]; intros [= <-]; simpl; split; reflexivity.
Qed.

(** Whatever the replies do, exactly one timer stays armed. *)
Lemma one_timer_step e st st' :
  List.length (timers st) = 1%nat -> step e st = Some st' ->
  List.length (timers st') = 1%nat.
Proof.
  intros H1 Hs. destruct e as [t|t q reply].
  - apply tick_issues_and_rearms in Hs as (-> & _ & _).
    destruct (timers st) as [|d [|d' r]]; simpl in *; try discriminate.
    reflexivity.
  - apply settle_step in Hs as (-> & _). exact H1.
Qed.

Lemma single_chain_step e st st' :
  single_chain st ->
  (List.length (inflight st) <= 1)%nat ->
  responsive (time_of e) st = true ->
  step e st = Some st' ->
  single_chain st' /\ (List.length (inflight st') <= 1)%nat.
Proof.
  intros (due & Ht & Hq) Hlen Hresp Hs. destruct e as [t|t q reply].
  - (* the timer fires: nothing can still be waiting *)
    assert (inflight st = []) as Hnone.
    { unfold step in Hs. simpl in Hs.
      destruct (t <? clock st); [discriminate|].
      rewrite Ht in Hs. destruct (Z.leb_spec due t) as [Hdue|]; [|discriminate].
      destruct (inflight st) as [|q0 r] eqn:E; [reflexivity|].
      unfold responsive in Hresp. rewrite E in Hresp. simpl in Hresp.
      apply andb_prop in Hresp as [Hq0 _]. apply Z.ltb_lt in Hq0.
      inversion Hq as [|? ? Hq0' _]. simpl in *. lia. }
    apply tick_issues_and_rearms in Hs as (Ht' & Hi' & _).
    rewrite Ht in Ht'. rewrite Hnone in Hi'. simpl in *.
    split.
    + exists (t + period). split; [exact Ht'|].
      rewrite Hi'. constructor; [simpl; lia | constructor].
    + rewrite Hi'. simpl. lia.
  - apply settle_step in Hs as (Ht' & Hi').
    split.
    + exists due. split; [congruence|].
      rewrite Hi'. now apply Forall_remove_query.
    + rewrite Hi'. pose proof (length_remove_query q (inflight st)). lia.
Qed.

Lemma single_chain_run evs : forall st st',
  single_chain st ->
  (List.length (inflight st) <= 1)%nat ->
  timely evs st = true ->
  run evs st = Some st' ->
  single_chain st' /\ (List.length (inflight st') <= 1)%nat.
Proof.
  induction evs as [|e r IH]; intros st st' Hc Hl Ht Hr; simpl in *.
  - injection Hr as <-. now split.
  - apply andb_prop in Ht as [Hresp Ht].
    destruct (step e st) as [st1|] eqn:Hs; [|discriminate].
    destruct (single_chain_step e Hc Hl Hresp Hs) as [Hc1 Hl1].
    exact (IH st1 st' Hc1 Hl1 Ht Hr).
Qed.

End Refresh.

(** C2 (as the code has it).  The timer callback calls [updateBalance]
    again in the turn in which it sends the query, without waiting for
    the reply: exactly one timer is armed at any time, and ticks follow
    each other a period apart.  Provided every reply arrives less than a
    period (60 s) after its query was sent, at most one balance query of
    the loop is waiting at any moment. *)
Theorem refresh_no_overlap_when_timely (a : App) (t0 : Z)
    (evs : list RefreshLoop.event) (st : RefreshLoop.state) :
  RefreshLoop.run evs (RefreshLoop.boot a t0) = Some st ->
  RefreshLoop.timely evs (RefreshLoop.boot a t0) = true ->
  (List.length (RefreshLoop.inflight st) <= 1)%nat
  /\ List.length (RefreshLoop.timers st) = 1%nat.
Proof.
  intros Hr Ht.
  destruct (@single_chain_run evs (RefreshLoop.boot a t0) st
              (single_chain_boot a t0) (Nat.le_0_l 1) Ht Hr)
    as [(due & Hd & _) Hl].
  split; [exact Hl|]. now rewrite Hd.
Qed.

Lemma refresh_no_overlap_when_timely_witness :
  exists st,
    RefreshLoop.run
      [RefreshLoop.TimerFires 60000;
       RefreshLoop.BalanceSettles 60250 0 (Resolved "999");
       RefreshLoop.TimerFires 120000]
      (RefreshLoop.boot demo_app 0) = Some st
    /\ (List.length (RefreshLoop.inflight st) <= 1)%nat
    /\ List.length (RefreshLoop.timers st) = 1%nat.
Proof.
  eexists. split; [reflexivity|].
  apply (@refresh_no_overlap_when_timely demo_app 0%Z
           [RefreshLoop.TimerFires 60000;
            RefreshLoop.BalanceSettles 60250 0 (Resolved "999");
            RefreshLoop.TimerFires 120000]).
  - reflexivity.
  - reflexivity.
Defined.

(** C2, as stated, fails: when the first reply has not arrived by the
    second tick, two balance queries of the loop are waiting. *)
Lemma refresh_overlap_counterexample :
  (exists st,
     RefreshLoop.run [RefreshLoop.TimerFires 60000; RefreshLoop.TimerFires 120000]
                     (RefreshLoop.boot demo_app 0) = Some st
     /\ List.length (RefreshLoop.inflight st) = 2%nat)
  /\ ~ never_overlaps (RefreshLoop.boot demo_app 0).
Proof.
  split.
  - eexists. split; reflexivity.
  - intros H.
    specialize (H [RefreshLoop.TimerFires 60000; RefreshLoop.TimerFires 120000]
                  _ eq_refl).
    simpl in H. lia.
Qed.

(** C8.  When the reply to a waiting balance query is a failure, the
    stored balance (indeed the whole application object) stays as it was
    and the error is logged; when it is a success, the stored balance
    becomes the value of the reply. *)
Theorem refresh_reply (st : RefreshLoop.state) (t : Z) (q : nat)
    (waiting : RefreshLoop.query) :
  RefreshLoop.find_query q (RefreshLoop.inflight st) = Some waiting ->
  (RefreshLoop.clock st <= t)%Z ->
  (forall error, exists st',
      RefreshLoop.step (RefreshLoop.BalanceSettles t q (Rejected error)) st = Some st'
      /\ balance (RefreshLoop.app st') = balance (RefreshLoop.app st)
      /\ RefreshLoop.app st' = RefreshLoop.app st
      /\ RefreshLoop.trace st' = (RefreshLoop.trace st ++ [ConsoleError error])%list)
  /\
  (forall result, exists st',
      RefreshLoop.step (RefreshLoop.BalanceSettles t q (Resolved result)) st = Some st'
      /\ balance (RefreshLoop.app st') = Some result
      /\ same_identity (RefreshLoop.app st') (RefreshLoop.app st)).
Proof.
  intros Hq Ht.
  assert ((t <? RefreshLoop.clock st)%Z = false) as Hc by (apply Z.ltb_ge; lia).
  split; intros x; eexists; unfold RefreshLoop.step; simpl; rewrite Hc, Hq;
    (split; [reflexivity|]); simpl; repeat split.
Qed.

Lemma refresh_reply_witness :
  let st := RefreshLoop.timer_callback
              (RefreshLoop.pop_timer
                 (RefreshLoop.at_time 60000 (RefreshLoop.boot demo_app 0))) in
  (exists st',
      RefreshLoop.step (RefreshLoop.BalanceSettles 60250 0 (Rejected rpc_down)) st
        = Some st'
      /\ balance (RefreshLoop.app st') = Some "1000")
  /\
  (exists st',
      RefreshLoop.step (RefreshLoop.BalanceSettles 60250 0 (Resolved "999")) st
        = Some st'
      /\ balance (RefreshLoop.app st') = Some "999").
Proof.
  intros st.
  assert (RefreshLoop.find_query 0 (RefreshLoop.inflight st)
          = Some {| RefreshLoop.qid := 0; RefreshLoop.issued := 60000;
                    RefreshLoop.account := Some "0xa11ce" |}) as Hq
    by reflexivity.
  assert (RefreshLoop.clock st <= 60250)%Z as Ht by (simpl; lia).
  destruct (@refresh_reply st 60250%Z 0%nat _ Hq Ht) as [Hfail Hok].
  split.
  - destruct (Hfail rpc_down) as (st' & Hs & Hb & _).
    exists st'. split; [exact Hs|]. rewrite Hb. reflexivity.
  - destruct (Hok "999") as (st' & Hs & Hb & _).
    exists st'. split; [exact Hs | exact Hb].
Defined.

Lemma step_identity (e : RefreshLoop.event) (st st' : RefreshLoop.state) :
  RefreshLoop.step e st = Some st' ->
  same_identity (RefreshLoop.app st') (RefreshLoop.app st).
Proof.
  intros Hs. destruct e as [t|t q reply].
  - apply tick_issues_and_rearms in Hs as (_ & _ & ->). repeat split.
  - unfold RefreshLoop.step in Hs. simpl in Hs.
    destruct (t <? RefreshLoop.clock st)%Z; [discriminate|].
    destruct (RefreshLoop.find_query q (RefreshLoop.inflight st));
      [|discriminate].
    destruct reply; [| |discriminate]; injection Hs as <-; repeat split.
Qed.

Lemma same_identity_trans (a b c : App) :
  same_identity a b -> same_identity b c -> same_identity a c.
Proof. unfold same_identity. intuition congruence. Qed.

Lemma run_identity (evs : list RefreshLoop.event) :
  forall st st', RefreshLoop.run evs st = Some st' ->
                 same_identity (RefreshLoop.app st') (RefreshLoop.app st).
Proof.
  induction evs as [|e r IH]; intros st st' Hr; simpl in Hr.
  - injection Hr as <-. repeat split.
  - destruct (RefreshLoop.step e st) as [st1|] eqn:Hs; [|discriminate].
    eapply same_identity_trans; [apply (IH _ _ Hr) | apply (step_identity _ _ Hs)].
Qed.

(** C9.  Once start-up is over, no route handler and no callback of the
    Transfer subscription changes any field of the application object,
    and the turns of the refresh loop leave [networkId], [currentAccount],
    the contract handle and the cached name as they were: only the
    balance is ever assigned, and only by the loop's reply handler. *)
Theorem identity_frozen_after_startup :
  (forall env chain (r : request) (a : App), state_of (handle env chain r a) = a)
  /\ (forall to from tokenId (a : App),
        state_of (on_transfer_data to from tokenId a) = a)
  /\ (forall error (a : App), state_of (on_transfer_error error a) = a)
  /\ (forall evs st st',
        RefreshLoop.run evs st = Some st' ->
        same_identity (RefreshLoop.app st') (RefreshLoop.app st))
  /\ (forall e st st',
        RefreshLoop.step e st = Some st' ->
        RefreshLoop.app st' = RefreshLoop.app st
        \/ exists q result,
             e = RefreshLoop.BalanceSettles (RefreshLoop.clock st') q (Resolved result)
             /\ RefreshLoop.app st' = set_balance result (RefreshLoop.app st)).
Proof.
  split; [apply handle_state|].
  split; [reflexivity|]. split; [reflexivity|].
  split; [intros evs st st'; apply run_identity|].
  intros e st st' Hs. destruct e as [t|t q reply].
  - left. now apply tick_issues_and_rearms in Hs as (_ & _ & ->).
  - unfold RefreshLoop.step in Hs. simpl in Hs.
    destruct (t <? RefreshLoop.clock st)%Z; [discriminate|].
    destruct (RefreshLoop.find_query q (RefreshLoop.inflight st));
      [|discriminate].
    destruct reply as [b|err|err]; [| |discriminate]; injection Hs as <-.
    + right. exists q, b. split; reflexivity.
    + left. reflexivity.
Qed.

Lemma identity_frozen_after_startup_witness :
  exists st',
    RefreshLoop.run
      [RefreshLoop.TimerFires 60000;
       RefreshLoop.BalanceSettles 60250 0 (Resolved "999")]
      (RefreshLoop.boot demo_app 0) = Some st'
    /\ balance (RefreshLoop.app st') = Some "999"
    /\ same_identity (RefreshLoop.app st') demo_app
    /\ state_of (handle demo_env demo_chain (PostTokensNew (Some "0x70")) demo_app)
       = demo_app.
Proof.
  eexists. split; [reflexivity|]. split; [reflexivity|].
  destruct identity_frozen_after_startup as (Hh & _ & _ & Hrun & _).
  split.
  - apply (Hrun [RefreshLoop.TimerFires 60000;
                 RefreshLoop.BalanceSettles 60250 0 (Resolved "999")]
             (RefreshLoop.boot demo_app 0)).
    reflexivity.
  - apply Hh.
Defined.

(* ================================================================== *)
(** * Further properties of the code *)

(** ** Start-up *)

(** X1.  When the node answers every start-up request, [start] asks for
    the accounts, the balance of the first account, the network id and
    the contract name in that order, assigns the five fields from the
    answers, and only then starts the server, arms the refresh timer and
    subscribes to Transfer events; it neither logs an error nor exits. *)
Theorem start_success chain port app a0 rest bal id c n :
  eth_getAccounts chain = Resolved (a0 :: rest) ->
  eth_getBalance chain (Some a0) = Resolved bal ->
  net_getId chain = Resolved id ->
  deployed chain id = Resolved c ->
  call_name chain = Resolved n ->
  let r := start chain port app in
  state_of r = {| currentAccount := Some a0; balance := Some bal;
                  networkId := Some id; contract := Some c; name := Some n |}
  /\ effects_of r
     = [ConsoleLog [JStr "starting app..."]; Web3 "eth.getAccounts" [];
        Web3 "eth.getBalance" [JStr a0]; Web3 "eth.net.getId" [];
        Call "name" []; UseCors; Listen port;
        SetTimeout 60000; SubscribeTransfer]
  /\ existsb is_exit (effects_of r) = false.
Proof.
  intros Ha Hb Hi Hc Hn r. subst r.
  rewrite (@start_ok chain port app a0 rest bal id c n Ha Hb Hi Hc Hn).
  split; [reflexivity|]. split; reflexivity.
Qed.

Lemma start_success_witness :
  state_of (start demo_chain 3000 new_App) = demo_app
  /\ effects_of (start demo_chain 3000 new_App)
     = [ConsoleLog [JStr "starting app..."]; Web3 "eth.getAccounts" [];
        Web3 "eth.getBalance" [JStr "0xa11ce"]; Web3 "eth.net.getId" [];
        Call "name" []; UseCors; Listen 3000;
        SetTimeout 60000; SubscribeTransfer]
  /\ existsb is_exit (effects_of (start demo_chain 3000 new_App)) = false.
Proof.
  apply (@start_success demo_chain 3000%N new_App "0xa11ce" [] "1000" 4%N
           {| address := "0xc0de" |} "Example"); reflexivity.
Defined.

(** X2.  [start] has two ways to end and no third.  Either all five
    requests were answered (with at least one account) and the server is
    listening with every field of [this] assigned; or the run ends with
    [console.error] and [process.exit(1)] and the server, the timer and
    the subscription were never set up.  So a handler never sees an
    application object with a missing field. *)
Theorem start_serves_or_exits chain port app :
  let r := start chain port app in
  (In (Listen port) (effects_of r)
   /\ existsb is_exit (effects_of r) = false
   /\ initialised (state_of r)
   /\ exists a0 rest bal id c n,
        eth_getAccounts chain = Resolved (a0 :: rest)
        /\ eth_getBalance chain (Some a0) = Resolved bal
        /\ net_getId chain = Resolved id
        /\ deployed chain id = Resolved c
        /\ call_name chain = Resolved n)
  \/
  (existsb is_serving (effects_of r) = false
   /\ exists pre e,
        effects_of r = (pre ++ [ConsoleError e; Exit 1])%list).
Proof.
  intros r. subst r.
  destruct (eth_getAccounts chain) as [[|a0 rest]|e0|e0] eqn:Ha;
    [ | destruct (eth_getBalance chain (Some a0)) as [bal|e1|e1] eqn:Hb;
        [ destruct (net_getId chain) as [id|e2|e2] eqn:Hi;
          [ destruct (deployed chain id) as [c|e3|e3] eqn:Hc;
            [ destruct (call_name chain) as [n|e4|e4] eqn:Hn | | ]
          | | ]
        | | ]
    | | ].
  2: { left. rewrite (@start_ok chain port app a0 rest bal id c n Ha Hb Hi Hc Hn).
       unfold effects_of, state_of, initialised. simpl.
       split; [auto 10|]. split; [reflexivity|].
       split; [repeat split; discriminate|].
       exists a0, rest, bal, id, c, n. repeat split; assumption. }
  all: right; unfold start, createServer, updateBalance,
         watchTransferEvents, assign; run_M;
       rewrite ?Ha; simpl; rewrite ?Hb; simpl; rewrite ?Hi; simpl;
       rewrite ?Hc; simpl; rewrite ?Hn; simpl;
       (split; [reflexivity|]).
  - exists [ConsoleLog [JStr "starting app..."]; Web3 "eth.getAccounts" []],
           (Error "No account found"). reflexivity.
  - exists [ConsoleLog [JStr "starting app..."]; Web3 "eth.getAccounts" [];
            Web3 "eth.getBalance" [JStr a0]; Web3 "eth.net.getId" [];
            Call "name" []], e4. reflexivity.
  - exists [ConsoleLog [JStr "starting app..."]; Web3 "eth.getAccounts" [];
            Web3 "eth.getBalance" [JStr a0]; Web3 "eth.net.getId" [];
            Call "name" []], e4. reflexivity.
  - exists [ConsoleLog [JStr "starting app..."]; Web3 "eth.getAccounts" [];
            Web3 "eth.getBalance" [JStr a0]; Web3 "eth.net.getId" []], e3.
    reflexivity.
  - exists [ConsoleLog [JStr "starting app..."]; Web3 "eth.getAccounts" [];
            Web3 "eth.getBalance" [JStr a0]; Web3 "eth.net.getId" []], e3.
    reflexivity.
  - exists [ConsoleLog [JStr "starting app..."]; Web3 "eth.getAccounts" [];
            Web3 "eth.getBalance" [JStr a0]; Web3 "eth.net.getId" []], e2.
    reflexivity.
  - exists [ConsoleLog [JStr "starting app..."]; Web3 "eth.getAccounts" [];
            Web3 "eth.getBalance" [JStr a0]; Web3 "eth.net.getId" []], e2.
    reflexivity.
  - exists [ConsoleLog [JStr "starting app..."]; Web3 "eth.getAccounts" [];
            Web3 "eth.getBalance" [JStr a0]], e1. reflexivity.
  - exists [ConsoleLog [JStr "starting app..."]; Web3 "eth.getAccounts" [];
            Web3 "eth.getBalance" [JStr a0]], e1. reflexivity.
  - exists [ConsoleLog [JStr "starting app..."]; Web3 "eth.getAccounts" []], e0.
    reflexivity.
  - exists [ConsoleLog [JStr "starting app..."]; Web3 "eth.getAccounts" []], e0.
    reflexivity.
Qed.

(** X3.  When the provider lists no account, [start] stops right there:
    it logs [Error: No account found] and exits with status 1; no balance
    or network request is made and no field is assigned. *)
Theorem start_no_account chain port app :
  eth_getAccounts chain = Resolved [] ->
  let r := start chain port app in
  effects_of r
    = [ConsoleLog [JStr "starting app..."]; Web3 "eth.getAccounts" [];
       ConsoleError (Error "No account found"); Exit 1]
  /\ state_of r = app
  /\ toString (Error "No account found") = "Error: No account found".
Proof.
  intros Ha r. subst r. unfold start. run_M. rewrite Ha.
  split; [reflexivity|]. split; reflexivity.
Qed.

Lemma start_no_account_witness :
  let r := start (with_accounts demo_chain (Resolved [])) 3000 new_App in
  effects_of r
    = [ConsoleLog [JStr "starting app..."]; Web3 "eth.getAccounts" [];
       ConsoleError (Error "No account found"); Exit 1]
  /\ state_of r = new_App
  /\ toString (Error "No account found") = "Error: No account found".
Proof.
  apply (@start_no_account (with_accounts demo_chain (Resolved [])) 3000%N
           new_App).
  reflexivity.
Defined.

(** X4.  After a successful start-up, [GET /] reports what the node
    answered during start-up: the network id, the address of the resolved
    contract, the first account, its balance and the contract name. *)
Theorem status_after_start env chain port app a0 rest bal id c n :
  eth_getAccounts chain = Resolved (a0 :: rest) ->
  eth_getBalance chain (Some a0) = Resolved bal ->
  net_getId chain = Resolved id ->
  deployed chain id = Resolved c ->
  call_name chain = Resolved n ->
  responses (effects_of
               (handle env chain GetRoot (state_of (start chain port app))))
  = [JObj [("networkId", JNum id); ("contractAddress", JStr (address c));
           ("address", JStr a0); ("balance", JStr bal); ("name", JStr n)]].
Proof.
  intros Ha Hb Hi Hc Hn.
  rewrite (@start_ok chain port app a0 rest bal id c n Ha Hb Hi Hc Hn). reflexivity.
Qed.

Lemma status_after_start_witness :
  responses (effects_of
               (handle demo_env demo_chain GetRoot
                       (state_of (start demo_chain 3000 new_App))))
  = [JObj [("networkId", JNum 4); ("contractAddress", JStr "0xc0de");
           ("address", JStr "0xa11ce"); ("balance", JStr "1000");
           ("name", JStr "Example")]].
Proof.
  apply (@status_after_start demo_env demo_chain 3000%N new_App "0xa11ce" []
           "1000" 4%N {| address := "0xc0de" |} "Example"); reflexivity.
Defined.

(** ** Minting, all the ways it can go *)

(** The handler once the estimate is in, in closed form. *)
Lemma post_tokens_new_estimated env chain to app gas :
  mint_estimateGas chain (mint_method env chain to) = Resolved gas ->
  let method := mint_method env chain to in
  post_tokens_new env chain to app
  = (Resolved tt, app,
     [EstimateGas method; Send method (mint_options app gas)] ++
     match mint_send chain method (mint_options app gas) with
     | SendThrows error
     | SendCallback (Some error) _ =>
         [ConsoleError error; ResSend (JObj [("error", JStr (toString error))])]
     | SendCallback None None
     | SendCallback None (Some EmptyString) =>
         [ResSend (JObj [("error",
                          JStr "The transaction hash could not be found.")])]
     | SendCallback None (Some h) =>
         [ResSend (JObj [("transactionHash", JStr h);
                         ("tokenId", JStr (generated_tokenId chain))])]
     end)%list.
Proof.
  intros Hg method. subst method. rewrite post_tokens_new_eq. run_M.
  rewrite Hg. simpl.
  destruct (mint_send chain (mint_method env chain to) (mint_options app gas))
    as [e|[e|] [[|c h]|]]; reflexivity.
Qed.

(** Web3 throws on the arguments: the exception leaves the handler. *)
Lemma post_tokens_new_thrown env chain to app e :
  mint_estimateGas chain (mint_method env chain to) = Throws e ->
  post_tokens_new env chain to app
  = (Throws e, app, [EstimateGas (mint_method env chain to)]).
Proof.
  intros H. rewrite post_tokens_new_eq. run_M. rewrite H. reflexivity.
Qed.

(** One reply and no uncaught error, unless web3 throws on the
    arguments. *)
Lemma post_tokens_new_replies_once env chain to app :
  let r := post_tokens_new env chain to app in
  match mint_estimateGas chain (mint_method env chain to) with
  | Throws e => responses (effects_of r) = [] /\ result_of r = Throws e
  | _ => (exists body, responses (effects_of r) = [body])
         /\ result_of r = Resolved tt
  end.
Proof.
  intros r. subst r.
  destruct (mint_estimateGas chain (mint_method env chain to)) as [gas|e|e] eqn:Hg.
  - rewrite (post_tokens_new_estimated env chain to app Hg).
    unfold result_of, effects_of. simpl.
    destruct (mint_send chain (mint_method env chain to) (mint_options app gas))
      as [e|[e|] [[|c h]|]]; simpl; (split; [eexists; reflexivity | reflexivity]).
  - rewrite (post_tokens_new_gas_rejected env chain to app Hg).
    split; [eexists; reflexivity | reflexivity].
  - rewrite (post_tokens_new_thrown env chain to app Hg).
    split; reflexivity.
Qed.

(** X5.  Once the gas estimate is in, the handler submits the
    transaction; what follows depends on [method.send] alone.  If it
    throws, or calls back with an error (even when a hash comes with it),
    the error is logged and the reply is [{error: error.toString()}]; if
    it calls back without error and without a usable hash (absent or
    empty), the reply is the fixed message; otherwise the reply carries
    the hash and the generated id. *)
Theorem mint_after_estimate env chain to app gas :
  mint_estimateGas chain (mint_method env chain to) = Resolved gas ->
  let method := mint_method env chain to in
  effects_of (post_tokens_new env chain to app)
  = ([EstimateGas method; Send method (mint_options app gas)] ++
     match mint_send chain method (mint_options app gas) with
     | SendThrows error
     | SendCallback (Some error) _ =>
         [ConsoleError error; ResSend (JObj [("error", JStr (toString error))])]
     | SendCallback None None
     | SendCallback None (Some EmptyString) =>
         [ResSend (JObj [("error",
                          JStr "The transaction hash could not be found.")])]
     | SendCallback None (Some h) =>
         [ResSend (JObj [("transactionHash", JStr h);
                         ("tokenId", JStr (generated_tokenId chain))])]
     end)%list.
Proof.
  intros Hg method. subst method.
  now rewrite (post_tokens_new_estimated env chain to app Hg).
Qed.

Lemma mint_after_estimate_witness :
  responses (effects_of
               (post_tokens_new demo_env
                  (with_send demo_chain
                     (SendCallback (Some rpc_down) (Some "0xbeef")))
                  None demo_app))
  = [JObj [("error", JStr "Error: connection not open")]].
Proof.
  rewrite (@mint_after_estimate demo_env
             (with_send demo_chain
                (SendCallback (Some rpc_down) (Some "0xbeef")))
             None demo_app 21000%N eq_refl).
  reflexivity.
Defined.

(** X6.  In a run of [POST /tokens/new] whose promises settle: when
    web3 accepts the arguments, so that [method.estimateGas()] returns a
    promise, the handler sends exactly one reply and ends without an
    uncaught exception; that reply has the shape
    [{transactionHash, tokenId}] exactly when the estimate resolved and
    [send] called back with no error and a non-empty hash, and is
    [{error: <string>}] in every other case.  When [estimateGas()]
    throws instead (a recipient web3 cannot encode), the call standing
    outside the [try], the exception leaves the handler, which sends
    nothing. *)
Theorem mint_reply_shape env chain to app :
  let r := post_tokens_new env chain to app in
  let method := mint_method env chain to in
  match mint_estimateGas chain method with
  | Throws e =>
      responses (effects_of r) = [] /\ result_of r = Throws e
      /\ effects_of r = [EstimateGas method]
  | _ =>
      result_of r = Resolved tt
      /\ exists body,
           responses (effects_of r) = [body]
           /\ ((exists h, body = JObj [("transactionHash", JStr h);
                                       ("tokenId", JStr (generated_tokenId chain))])
               <-> (exists gas h,
                      mint_estimateGas chain method = Resolved gas
                      /\ mint_send chain method (mint_options app gas)
                         = SendCallback None (Some h)
                      /\ h <> ""))
           /\ ((exists h, body = JObj [("transactionHash", JStr h);
                                       ("tokenId", JStr (generated_tokenId chain))])
               \/ exists s, body = JObj [("error", JStr s)])
  end.
Proof.
  intros r method. subst r method.
  destruct (mint_estimateGas chain (mint_method env chain to)) as [gas|e|e] eqn:Hg.
  - rewrite (post_tokens_new_estimated env chain to app Hg).
    unfold result_of, effects_of. simpl.
    destruct (mint_send chain (mint_method env chain to) (mint_options app gas))
      as [e|[e|] [[|c h]|]] eqn:Hs; simpl;
      (split; [reflexivity|]); eexists; (split; [reflexivity|]); split.
    all: try (right; eexists; reflexivity).
    all: try (left; eexists; reflexivity).
    all: split.
    all: try (intros (h' & Hh); discriminate Hh).
    all: try (intros (g' & h' & [= <-] & Hs' & Hne); rewrite Hs in Hs';
              try discriminate Hs'; injection Hs' as <-; congruence).
    + intros _. exists gas, (String c h). repeat split; [exact Hs | discriminate].
    + intros _. eexists. reflexivity.
  - rewrite (post_tokens_new_gas_rejected env chain to app Hg).
    unfold result_of, effects_of. simpl.
    split; [reflexivity|]. eexists. split; [reflexivity|]. split.
    + split.
      * intros (h & Hh). discriminate Hh.
      * intros (g & h & Hg' & _). discriminate Hg'.
    + right. eexists. reflexivity.
  - rewrite (post_tokens_new_thrown env chain to app Hg).
    split; [reflexivity|]. split; reflexivity.
Qed.

(** X7.  The handler asks for the gas estimate first, once, and submits
    at most one transaction: none when the estimate failed (rejected
    promise, or web3 throwing on the arguments), and otherwise one for
    the very arguments that were estimated, sent from
    [this.currentAccount] with the estimated gas and the fixed gas price
    1100000000.  It makes no other call. *)
Theorem mint_requests env chain to app :
  let r := post_tokens_new env chain to app in
  let method := mint_method env chain to in
  rpcs (effects_of r)
  = EstimateGas method ::
    match mint_estimateGas chain method with
    | Resolved gas =>
        [Send method {| tx_from := currentAccount app; tx_gas := gas;
                        tx_gasPrice := "1100000000" |}]
    | Rejected _ | Throws _ => []
    end.
Proof.
  intros r method. subst r method.
  destruct (mint_estimateGas chain (mint_method env chain to)) as [gas|e|e] eqn:Hg.
  - rewrite (post_tokens_new_estimated env chain to app Hg).
    unfold effects_of, rpcs. simpl.
    destruct (mint_send chain (mint_method env chain to) (mint_options app gas))
      as [e|[e|] [[|c h]|]]; reflexivity.
  - rewrite (post_tokens_new_gas_rejected env chain to app Hg). reflexivity.
  - rewrite (post_tokens_new_thrown env chain to app Hg). reflexivity.
Qed.

(** ** The routes as a whole *)

Lemma responses_owner_tokens chain owner app :
  let r := get_owner_tokens chain owner app in
  match call_balanceOf chain owner with
  | Throws e => responses (effects_of r) = [] /\ result_of r = Throws e
  | _ => (exists body, responses (effects_of r) = [body])
         /\ result_of r = Resolved tt
  end.
Proof.
  intros r. subst r. rewrite get_owner_tokens_eq.
  destruct (call_balanceOf chain owner) as [n|e|e];
    unfold effects_of, result_of; simpl.
  - rewrite responses_app.
    rewrite (responses_calls
               (fun i => ("tokenOfOwnerByIndex", [JStr owner; JNum i]))).
    simpl. split; [eauto | reflexivity].
  - split; [eauto | reflexivity].
  - split; reflexivity.
Qed.

Lemma get_token_valid_eq env chain tokenId app :
  match_digits tokenId = true ->
  get_token env chain tokenId app
  = match call_imageId chain tokenId with
    | Rejected e => (Rejected e, app, [Call "imageId" [JStr tokenId]])
    | Throws e => (Throws e, app, [Call "imageId" [JStr tokenId]])
    | Resolved imageIndex =>
        let baseUrl := or_default (WEB_URL env) "https://example-dapp-1.bitski.com" in
        let imageUrl :=
          baseUrl ++ "/assets/character-" ++ toString10 imageIndex ++ ".png" in
        (Resolved tt, app,
         [Call "imageId" [JStr tokenId];
          ResSend (JObj [("name", opt_str (name app));
                         ("description", JStr "An example of an ERC-721 token");
                         ("image", JStr imageUrl);
                         ("external_url", JStr baseUrl);
                         ("image_url", JStr imageUrl);
                         ("home_url", JStr baseUrl)])])
    end.
Proof.
  intros H. unfold get_token. rewrite get_token_guard, H. simpl. run_M.
  destruct (call_imageId chain tokenId); reflexivity.
Qed.

Ltac close_run :=
  first [ reflexivity
        | eexists; reflexivity
        | eexists; left; reflexivity
        | eexists; right; reflexivity ].

(** X8.  In every run whose promises settle, the handler of a request
    sends exactly one reply and ends without an uncaught error, except
    in two situations, in which it sends nothing.  One: web3 throws on the
    first call the handler makes (an owner, id or recipient it cannot
    encode); the [.catch] hangs on the promise that call would have
    returned and never runs, and the exception leaves the handler.  Two:
    on [GET /tokens/:tokenId] with a well-formed id the [imageId] read
    rejects; that chain has no [.catch] and the rejection stays
    unhandled.  A throw inside a [.then] callback (an index read of
    [/:ownerAddress/tokens]) is caught by the [.catch] and answered. *)
Theorem reply_once env chain (r : request) app :
  let run := handle env chain r app in
  if unanswered env chain r
  then responses (effects_of run) = []
       /\ exists e, result_of run = Rejected e \/ result_of run = Throws e
  else (exists body, responses (effects_of run) = [body])
       /\ result_of run = Resolved tt.
Proof.
  intros run. subst run. destruct r; simpl.
  - split; [eexists|]; reflexivity.
  - split; [eexists|]; reflexivity.
  - unfold get_totalSupply. run_M.
    destruct (call_totalSupply chain); simpl;
      (split; close_run).
  - unfold get_name. run_M.
    destruct (call_name chain); simpl;
      (split; close_run).
  - unfold get_mintLimit. run_M.
    destruct (call_mintLimit chain); simpl;
      (split; close_run).
  - unfold get_symbol. run_M.
    destruct (call_symbol chain); simpl;
      (split; close_run).
  - pose proof (responses_owner_tokens chain ownerAddress app) as H.
    cbv zeta in H.
    destruct (call_balanceOf chain ownerAddress); simpl;
      destruct H as [H1 H2]; (split; [exact H1 | rewrite H2; close_run]).
  - unfold get_owner_balance. run_M.
    destruct (call_balanceOf chain ownerAddress); simpl;
      (split; close_run).
  - destruct (match_digits tokenId) eqn:Hm; simpl.
    + rewrite (get_token_valid_eq env chain tokenId app Hm).
      destruct (call_imageId chain tokenId) as [k|e|e]; simpl.
      * split; [eexists|]; reflexivity.
      * split; close_run.
      * split; close_run.
    + rewrite (get_token_invalid env chain tokenId app Hm).
      split; [eexists|]; reflexivity.
  - rewrite get_tokenURI_eq.
    destruct (call_tokenURI chain tokenId); simpl;
      (split; close_run).
  - pose proof (post_tokens_new_replies_once env chain to app) as H.
    cbv zeta in H.
    destruct (mint_estimateGas chain (mint_method env chain to)); simpl;
      destruct H as [H1 H2]; (split; [exact H1 | rewrite H2; close_run]).
Qed.

(** X9.  On the routes that wrap one contract read ([/totalSupply],
    [/name], [/mintLimit], [/symbol], [/:ownerAddress/balance] and the
    balance read of [/:ownerAddress/tokens]), a rejected read is answered
    with the error object itself, not wrapped under an [error] key, and
    nothing else is asked of the contract. *)
Theorem read_failure_raw env chain (r : request) app e :
  first_read_fails chain r e ->
  responses (effects_of (handle env chain r app)) = [JErr e]
  /\ List.length (rpcs (effects_of (handle env chain r app))) = 1%nat.
Proof.
  destruct r; simpl; intros H; try contradiction.
  - unfold get_totalSupply. run_M. rewrite H. split; reflexivity.
  - unfold get_name. run_M. rewrite H. split; reflexivity.
  - unfold get_mintLimit. run_M. rewrite H. split; reflexivity.
  - unfold get_symbol. run_M. rewrite H. split; reflexivity.
  - rewrite get_owner_tokens_eq, H. split; reflexivity.
  - unfold get_owner_balance. run_M. rewrite H. split; reflexivity.
Qed.

Lemma read_failure_raw_witness :
  responses (effects_of
               (handle demo_env (with_name demo_chain (Rejected rpc_down))
                       GetName demo_app))
  = [JErr rpc_down].
Proof.
  refine (proj1 (@read_failure_raw demo_env
                   (with_name demo_chain (Rejected rpc_down))
                   GetName demo_app rpc_down _)).
  reflexivity.
Defined.

(** X10.  For a well-formed id whose [imageId] read returns [k], the
    metadata reply is built from that one read and from what the app
    already holds: the name is the one cached at start-up (no [name()]
    read is made), [image] and [image_url] are the same
    [{WEB base}/assets/character-k.png], [external_url] and [home_url]
    are the base, and the base is [WEB_URL] unless that is unset or
    empty, in which case it is the built-in host. *)
Theorem token_metadata env chain tokenId app k :
  match_digits tokenId = true ->
  call_imageId chain tokenId = Resolved k ->
  let base := match WEB_URL env with
              | Some (String c u) => String c u
              | _ => "https://example-dapp-1.bitski.com"
              end in
  let image := base ++ "/assets/character-" ++ toString10 k ++ ".png" in
  effects_of (get_token env chain tokenId app)
  = [Call "imageId" [JStr tokenId];
     ResSend (JObj [("name", opt_str (name app));
                    ("description", JStr "An example of an ERC-721 token");
                    ("image", JStr image);
                    ("external_url", JStr base);
                    ("image_url", JStr image);
                    ("home_url", JStr base)])].
Proof.
  intros Hm Hk base image. subst base image.
  rewrite (get_token_valid_eq env chain tokenId app Hm), Hk.
  destruct (WEB_URL env) as [[|c u]|]; reflexivity.
Qed.

Lemma token_metadata_witness :
  effects_of (get_token demo_env demo_chain "7" demo_app)
  = [Call "imageId" [JStr "7"];
     ResSend (JObj [("name", JStr "Example");
                    ("description", JStr "An example of an ERC-721 token");
                    ("image",
                     JStr "https://example-dapp-1.bitski.com/assets/character-3.png");
                    ("external_url", JStr "https://example-dapp-1.bitski.com");
                    ("image_url",
                     JStr "https://example-dapp-1.bitski.com/assets/character-3.png");
                    ("home_url", JStr "https://example-dapp-1.bitski.com")])].
Proof.
  apply (@token_metadata demo_env demo_chain "7" demo_app 3%N); reflexivity.
Defined.

(** ** Tokens of an owner, continued *)

Lemma rpcs_calls {A} (f : A -> string * list json) (l : list A) :
  rpcs (map (fun x => Call (fst (f x)) (snd (f x))) l)
  = map (fun x => Call (fst (f x)) (snd (f x))) l.
Proof. induction l as [|x r IH]; simpl; [reflexivity|]. now f_equal. Qed.

(** X11.  When [balanceOf(owner)] returns [n], the handler makes the
    reads [tokenOfOwnerByIndex(owner, 0)], [(owner, 1)], ... in index
    order, whatever the earlier ones answer, and sends its single reply
    after the last of them: its calls are the balance read followed by
    exactly those reads.  All [n] reads are made (a rejected read does
    not stop the loop), unless web3 throws on one of them, which ends
    the loop at that read. *)
Theorem owner_tokens_requests chain owner app (n : N) :
  call_balanceOf chain owner = Resolved n ->
  let read := call_tokenOfOwnerByIndex chain owner in
  let reads := map (fun i => Call "tokenOfOwnerByIndex" [JStr owner; JNum i])
                   (issued read (indices n)) in
  rpcs (effects_of (get_owner_tokens chain owner app))
    = Call "balanceOf" [JStr owner] :: reads
  /\ (exists body,
        effects_of (get_owner_tokens chain owner app)
        = (Call "balanceOf" [JStr owner] :: reads ++ [ResSend body])%list)
  /\ ((forall i, (i < n)%N -> throws_at_once (read i) = false) ->
      reads = map (fun i => Call "tokenOfOwnerByIndex" [JStr owner; JNum i])
                  (indices n)
      /\ List.length reads = N.to_nat n).
Proof.
  intros Hn read reads. subst reads read.
  rewrite get_owner_tokens_eq, Hn. unfold effects_of. simpl.
  split; [|split].
  - unfold rpcs. simpl. f_equal. rewrite filter_app. simpl.
    rewrite List.app_nil_r.
    apply (rpcs_calls (fun i => ("tokenOfOwnerByIndex", [JStr owner; JNum i]))).
  - eexists. reflexivity.
  - intros Hno.
    destruct (no_throw_all (call_tokenOfOwnerByIndex chain owner) (indices n))
      as [_ ->].
    + intros i Hi. apply Hno. now apply in_indices.
    + split; [reflexivity|]. now rewrite length_map, length_indices.
Qed.

Lemma owner_tokens_requests_witness :
  rpcs (effects_of
          (get_owner_tokens
             (with_tokenOfOwnerByIndex demo_chain (fun _ _ => Rejected rpc_down))
             "0x0123" demo_app))
  = [Call "balanceOf" [JStr "0x0123"];
     Call "tokenOfOwnerByIndex" [JStr "0x0123"; JNum 0];
     Call "tokenOfOwnerByIndex" [JStr "0x0123"; JNum 1]].
Proof.
  refine (proj1 (@owner_tokens_requests
                   (with_tokenOfOwnerByIndex demo_chain
                      (fun _ _ => Rejected rpc_down))
                   "0x0123" demo_app 2%N _)).
  reflexivity.
Defined.

(** X12.  The two owner routes agree: when the balance read and every
    index read succeed, the string [/:ownerAddress/balance] replies is
    the decimal numeral of the number of ids [/:ownerAddress/tokens]
    lists. *)
Theorem owner_balance_counts_tokens chain owner app (n : N) (tok : N -> N) :
  call_balanceOf chain owner = Resolved n ->
  (forall i, (i < n)%N -> call_tokenOfOwnerByIndex chain owner i = Resolved (tok i)) ->
  exists s tokens,
    responses (effects_of (get_owner_balance chain owner app))
      = [JObj [("balance", JStr s)]]
    /\ responses (effects_of (get_owner_tokens chain owner app))
      = [JObj [("tokens", JArr tokens)]]
    /\ parseDecimal s = Some (N.of_nat (List.length tokens)).
Proof.
  intros Hn Htok.
  exists (toString10 n), (map (fun i => JStr (toString10 (tok i))) (indices n)).
  split; [|split].
  - unfold get_owner_balance. run_M. now rewrite Hn.
  - assert (forall i, In i (indices n) ->
                      call_tokenOfOwnerByIndex chain owner i = Resolved (tok i))
      as Hall by (intros i Hi; apply Htok; now apply in_indices).
    destruct (no_throw_resolved _ tok (indices n) Hall) as [Hnone Hiss].
    rewrite get_owner_tokens_eq, Hn. unfold effects_of. simpl.
    rewrite Hnone, Hiss, (promise_all_resolved _ tok _ Hall).
    rewrite responses_app.
    rewrite (responses_calls
               (fun i => ("tokenOfOwnerByIndex", [JStr owner; JNum i]))).
    simpl. now rewrite map_map.
  - rewrite parseDecimal_toString10, length_map, length_indices.
    now rewrite N2Nat.id.
Qed.

Lemma owner_balance_counts_tokens_witness :
  exists s tokens,
    responses (effects_of (get_owner_balance demo_chain "0x0123" demo_app))
      = [JObj [("balance", JStr s)]]
    /\ responses (effects_of (get_owner_tokens demo_chain "0x0123" demo_app))
      = [JObj [("tokens", JArr tokens)]]
    /\ parseDecimal s = Some (N.of_nat (List.length tokens)).
Proof.
  apply (@owner_balance_counts_tokens demo_chain "0x0123" demo_app 2%N
           (fun i => (i + 10)%N)).
  - reflexivity.
  - intros i _. reflexivity.
Defined.

(** ** Token ids as text *)


Lemma bytes_fold_inj (l1 : list byte) : forall l2 a1 a2,
  List.length l1 = List.length l2 ->
  fold_left (fun a b => a * 256 + Byte.to_N b)%N l1 a1
  = fold_left (fun a b => a * 256 + Byte.to_N b)%N l2 a2 ->
  a1 = a2 /\ l1 = l2.
Proof.
  induction l1 as [|b1 r1 IH]; intros [|b2 r2] a1 a2 Hl H;
    try discriminate Hl.
  - now split.
  - simpl in H. injection Hl as Hl.
    destruct (IH r2 _ _ Hl H) as [Ha Hr].
    pose proof (Byte.to_N_bounded b1). pose proof (Byte.to_N_bounded b2).
    assert (a1 = a2 /\ Byte.to_N b1 = Byte.to_N b2) as [-> Hb] by lia.
    split; [reflexivity|]. f_equal; [|exact Hr].
    pose proof (Byte.of_to_N b1) as Hof1. pose proof (Byte.of_to_N b2) as Hof2.
    rewrite Hb in Hof1. congruence.
Qed.

Lemma append_cancel_l (p s1 s2 : string) : p ++ s1 = p ++ s2 -> s1 = s2.
Proof. induction p as [|c p IH]; simpl; intros H; [exact H|]. injection H as H. auto. Qed.


(* The statements below mention ids built from 32 concrete bytes;
   arguments are passed explicitly from here on. *)
Unset Implicit Arguments.

Lemma uri_cancel (base s1 s2 : string) :
  base ++ "/tokens/" ++ s1 = base ++ "/tokens/" ++ s2 -> s1 = s2.
Proof.
  intros H. apply append_cancel_l in H.
  exact (append_cancel_l "/tokens/" s1 s2 H).
Qed.

Lemma generated_tokenIdString_eq (c : Chain) :
  generated_tokenIdString c
  = toString10 (bytes_value (map (randomBytes c) (seq 0 32))).
Proof. unfold generated_tokenIdString. reflexivity. Qed.

Lemma bytes_value_inj (l1 l2 : list byte) :
  List.length l1 = List.length l2 -> bytes_value l1 = bytes_value l2 -> l1 = l2.
Proof.
  unfold bytes_value. intros Hl H.
  now destruct (bytes_fold_inj l1 l2 0 0 Hl H).
Qed.

Lemma length_generated_bytes (c1 c2 : Chain) :
  List.length (map (randomBytes c1) (seq 0 32))
  = List.length (map (randomBytes c2) (seq 0 32)).
Proof. rewrite !length_map. reflexivity. Qed.

Lemma generated_value_inj (c1 c2 : Chain) :
  generated_tokenIdString c1 = generated_tokenIdString c2 ->
  bytes_value (map (randomBytes c1) (seq 0 32))
  = bytes_value (map (randomBytes c2) (seq 0 32)).
Proof.
  intros H. rewrite !generated_tokenIdString_eq in H.
  exact (toString10_inj _ _ H).
Qed.

Lemma generated_decimal_inj (c1 c2 : Chain) :
  generated_tokenIdString c1 = generated_tokenIdString c2 ->
  map (randomBytes c1) (seq 0 32) = map (randomBytes c2) (seq 0 32).
Proof.
  intros H.
  exact (bytes_value_inj _ _ (length_generated_bytes c1 c2)
           (generated_value_inj c1 c2 H)).
Qed.

(** X14.  For one API base, the token URI built for a mint and the id
    sent to the contract determine each other: two mints get the same
    URI exactly when they drew the same id. *)
Theorem token_uri_identifies_id env (c1 c2 : Chain) (to1 to2 : option string) :
  mint_tokenURI (mint_method env c1 to1) = mint_tokenURI (mint_method env c2 to2)
  <-> mint_tokenId (mint_method env c1 to1) = mint_tokenId (mint_method env c2 to2).
Proof.
  change (mint_tokenURI (mint_method env c1 to1))
    with (or_default (API_URL env) "https://example-dapp-1-api.bitski.com"
          ++ "/tokens/" ++ generated_tokenIdString c1).
  change (mint_tokenURI (mint_method env c2 to2))
    with (or_default (API_URL env) "https://example-dapp-1-api.bitski.com"
          ++ "/tokens/" ++ generated_tokenIdString c2).
  change (mint_tokenId (mint_method env c1 to1)) with (generated_tokenId c1).
  change (mint_tokenId (mint_method env c2 to2)) with (generated_tokenId c2).
  split; intros H.
  - apply uri_cancel in H. apply generated_decimal_inj in H.
    unfold generated_tokenId, randomHex. now rewrite H.
  - pose proof (hexToNumberString_generated c1) as H1.
    pose proof (hexToNumberString_generated c2) as H2.
    rewrite H in H1. rewrite H1 in H2. injection H2 as H2. now rewrite H2.
Qed.

Lemma digit_char (a : ascii) (d : Decimal.uint) :
  is_digit a = true <-> uint_of_char a (Some d) <> None.
Proof.
  destruct a as [[] [] [] [] [] [] [] []]; simpl; split;
    solve [discriminate | intros _; reflexivity | intros H; now elim H].
Qed.

Lemma all_digits_parse (s : string) :
  all_digits s = true <-> NilEmpty.uint_of_string s <> None.
Proof.
  induction s as [|a s IH]; simpl.
  - split; [discriminate | reflexivity].
  - rewrite andb_true_iff, IH.
    destruct (NilEmpty.uint_of_string s) as [d|].
    + rewrite (digit_char a d). split; [intros [H _]; exact H|].
      intros H. split; [exact H | discriminate].
    + simpl. split; [intros [_ H]; now elim H | intros H; now elim H].
Qed.

(** X15.  The check of [GET /tokens/:tokenId] lets through exactly the
    strings that are decimal numerals: an id passes the pattern if and
    only if it reads as a natural number (leading zeros allowed, no
    limit on size). *)
Theorem token_id_pattern_is_numeral (tokenId : string) :
  match_digits tokenId = true <-> exists n, parseDecimal tokenId = Some n.
Proof.
  unfold parseDecimal, NilZero.uint_of_string.
  destruct tokenId as [|a s].
  - simpl. split; [discriminate | intros [n H]; discriminate H].
  - change (match_digits (String a s)) with (all_digits (String a s)).
    rewrite all_digits_parse.
    destruct (NilEmpty.uint_of_string (String a s)) as [d|]; simpl.
    + split; [intros _; eauto | discriminate].
    + split; [intros H; now elim H | intros [n H]; discriminate H].
Qed.

(** ** The refresh loop over whole histories *)

Section RefreshHistories.
Import RefreshLoop.
Local Open Scope Z_scope.

Lemma period_pos : 0 < period.
Proof. reflexivity. Qed.

Lemma one_timer_run evs : forall st st',
  List.length (timers st) = 1%nat -> run evs st = Some st' ->
  List.length (timers st') = 1%nat.
Proof.
  induction evs as [|e r IH]; intros st st' H1 Hr; simpl in Hr.
  - now injection Hr as <-.
  - destruct (step e st) as [st1|] eqn:Hs; [|discriminate].
    exact (IH _ _ (@one_timer_step e st st1 H1 Hs) Hr).
Qed.

Lemma tick_enabled st due t :
  timers st = [due] -> due <= t -> clock st <= t ->
  exists st', step (TimerFires t) st = Some st'.
Proof.
  intros Ht Hd Hc. unfold step. simpl.
  destruct (Z.ltb_spec t (clock st)); [lia|]. rewrite Ht.
  destruct (Z.leb_spec due t); [|lia]. eauto.
Qed.

(** X16.  The loop never stops and never doubles: after any history,
    whatever the replies were (failures included) and however late they
    came, exactly one timer is armed, and the next tick can take place
    at any time from its due time on. *)
Theorem refresh_keeps_ticking (a : App) (t0 : Z) (evs : list event) (st : state) :
  run evs (boot a t0) = Some st ->
  exists due,
    timers st = [due]
    /\ forall t, due <= t -> clock st <= t ->
         exists st', step (TimerFires t) st = Some st'.
Proof.
  intros Hr.
  pose proof (one_timer_run evs (boot a t0) st eq_refl Hr) as H1.
  destruct (timers st) as [|due [|d r]] eqn:Ht; try discriminate H1.
  exists due. split; [reflexivity|].
  intros t Hd Hc. exact (tick_enabled st due t Ht Hd Hc).
Qed.

Lemma refresh_keeps_ticking_witness :
  exists st due,
    run [TimerFires 60000; BalanceSettles 200000 0 (Rejected rpc_down)]
        (boot demo_app 0) = Some st
    /\ timers st = [due]
    /\ forall t, due <= t -> clock st <= t ->
         exists st', step (TimerFires t) st = Some st'.
Proof.
  eexists.
  destruct (@refresh_keeps_ticking demo_app 0
              [TimerFires 60000; BalanceSettles 200000 0 (Rejected rpc_down)]
              _ eq_refl) as (due & Hd & Hnext).
  exists due. split; [reflexivity|]. split; [exact Hd | exact Hnext].
Defined.

Lemma spaced_from st due evs : forall st',
  timers st = [due] -> run evs st = Some st' ->
  spaced period (due - period) (tick_times evs).
Proof.
  revert st due. induction evs as [|e r IH]; intros st due st' Ht Hr.
  - exact I.
  - simpl in Hr. destruct (step e st) as [st1|] eqn:Hs; [|discriminate].
    destruct e as [t|t q reply].
    + assert (due <= t) as Hdue.
      { unfold step in Hs. simpl in Hs.
        destruct (t <? clock st); [discriminate|]. rewrite Ht in Hs.
        destruct (Z.leb_spec due t); [assumption | discriminate]. }
      apply tick_issues_and_rearms in Hs as (Ht1 & _ & _).
      rewrite Ht in Ht1. simpl in Ht1.
      unfold tick_times. simpl. split; [lia|].
      pose proof (IH st1 (t + period) st' Ht1 Hr) as Hsp.
      replace (t + period - period) with t in Hsp by lia. exact Hsp.
    + apply settle_step in Hs as (Ht1 & _). rewrite Ht in Ht1.
      exact (IH st1 due st' Ht1 Hr).
Qed.

(** X17.  Ticks are never closer than a period: in any history of the
    loop started at [t0], the first tick comes at least 60 s after [t0]
    and each later tick at least 60 s after the one before. *)
Theorem refresh_ticks_spaced (a : App) (t0 : Z) (evs : list event) (st : state) :
  run evs (boot a t0) = Some st ->
  spaced 60000 t0 (tick_times evs).
Proof.
  intros Hr.
  pose proof (spaced_from (boot a t0) (t0 + period) evs st eq_refl Hr) as H.
  replace (t0 + period - period) with t0 in H by lia. exact H.
Qed.

Lemma refresh_ticks_spaced_witness :
  spaced 60000 0 [60000; 120007].
Proof.
  apply (@refresh_ticks_spaced demo_app 0
           [TimerFires 60000; BalanceSettles 60250 0 (Resolved "999");
            TimerFires 120007]
           _ eq_refl).
Defined.

Lemma silent_ticks_from (n : nat) : forall st t,
  timers st = [t + period] -> clock st <= t + period ->
  exists st',
    run (silent_ticks n t) st = Some st'
    /\ List.length (inflight st') = (List.length (inflight st) + n)%nat.
Proof.
  induction n as [|k IH]; intros st t Ht Hc.
  - exists st. split; [reflexivity | simpl; lia].
  - destruct (tick_enabled st (t + period) (t + period) Ht (Z.le_refl _) Hc)
      as [st1 Hs].
    pose proof (tick_issues_and_rearms _ _ Hs) as (Ht1 & Hi1 & _).
    rewrite Ht in Ht1. simpl in Ht1.
    assert (clock st1 <= t + period + period) as Hc1.
    { unfold step in Hs. simpl in Hs.
      destruct (t + period <? clock st); [discriminate|]. rewrite Ht in Hs.
      destruct (t + period <=? t + period); [|discriminate].
      injection Hs as <-. simpl. pose proof period_pos. lia. }
    destruct (IH st1 (t + period) Ht1 Hc1) as (st' & Hr & Hl).
    exists st'. split.
    + simpl. rewrite Hs. exact Hr.
    + rewrite Hl, Hi1, length_app. simpl. lia.
Qed.

(** X18.  Nothing caps the number of balance queries waiting: if no reply
    comes, each tick adds one, so for every [n] the loop reaches a state
    with [n] queries in flight. *)
Theorem refresh_queries_pile_up (a : App) (t0 : Z) (n : nat) :
  exists st,
    run (silent_ticks n t0) (boot a t0) = Some st
    /\ List.length (inflight st) = n.
Proof.
  destruct (silent_ticks_from n (boot a t0) t0 eq_refl) as (st & Hr & Hl).
  - simpl. pose proof period_pos. lia.
  - exists st. split; [exact Hr | exact Hl].
Qed.

Lemma balance_after_run (evs : list event) : forall st st',
  run evs st = Some st' ->
  balance (app st') = last_resolved evs (balance (app st)).
Proof.
  induction evs as [|e r IH]; intros st st' Hr; simpl in Hr.
  - now injection Hr as <-.
  - destruct (step e st) as [st1|] eqn:Hs; [|discriminate].
    rewrite (IH _ _ Hr). destruct e as [t|t q [b|err|err]].
    + apply tick_issues_and_rearms in Hs as (_ & _ & ->). reflexivity.
    + unfold step in Hs. simpl in Hs.
      destruct (t <? clock st); [discriminate|].
      destruct (find_query q (inflight st)); [|discriminate].
      injection Hs as <-. reflexivity.
    + unfold step in Hs. simpl in Hs.
      destruct (t <? clock st); [discriminate|].
      destruct (find_query q (inflight st)); [|discriminate].
      injection Hs as <-. reflexivity.
    + unfold step in Hs. simpl in Hs.
      destruct (t <? clock st); [discriminate|].
      destruct (find_query q (inflight st)); discriminate.
Qed.

(** X19.  After any history the stored balance is the value of the
    reply that arrived last among the successful ones, whichever query
    it answers, and the start-up value when there was none: a late
    reply to an old query overwrites a newer one. *)
Theorem refresh_balance_is_last_reply (a : App) (t0 : Z) (evs : list event)
    (st : state) :
  run evs (boot a t0) = Some st ->
  balance (app st) = last_resolved evs (balance a).
Proof. intros Hr. exact (balance_after_run evs _ _ Hr). Qed.

Lemma refresh_balance_is_last_reply_witness :
  exists st',
    run [TimerFires 60000; TimerFires 120000;
         BalanceSettles 120100 1 (Resolved "new");
         BalanceSettles 120200 0 (Resolved "old")]
        (boot demo_app 0) = Some st'
    /\ balance (app st') = Some "old".
Proof.
  eexists. split; [vm_compute; reflexivity|].
  apply (@refresh_balance_is_last_reply demo_app 0
           [TimerFires 60000; TimerFires 120000;
            BalanceSettles 120100 1 (Resolved "new");
            BalanceSettles 120200 0 (Resolved "old")]).
  vm_compute; reflexivity.
Defined.

End RefreshHistories.

Section RefreshCounting.
Import RefreshLoop.
Local Open Scope Z_scope.

Lemma remove_absent (q : nat) (l : list query) :
  ~ In q (map qid l) -> remove_query q l = l.
Proof.
  induction l as [|x r IH]; intros H; simpl; [reflexivity|].
  simpl in H. destruct (Nat.eqb_spec (qid x) q) as [E|E].
  - exfalso. apply H. now left.
  - simpl. f_equal. apply IH. intros Hin. apply H. now right.
Qed.

Lemma remove_one (q : nat) (l : list query) (x : query) :
  NoDup (map qid l) -> find_query q l = Some x ->
  S (List.length (remove_query q l)) = List.length l.
Proof.
  induction l as [|y r IH]; intros Hnd Hf; simpl in *; [discriminate|].
  inversion Hnd as [|? ? Hnotin Hnd']; subst.
  destruct (Nat.eqb_spec (qid y) q) as [E|E]; simpl.
  - subst q. now rewrite (remove_absent _ _ Hnotin).
  - f_equal. now apply IH.
Qed.

Lemma in_remove_query (q i : nat) (l : list query) :
  In i (map qid (remove_query q l)) -> In i (map qid l).
Proof.
  unfold remove_query. rewrite !in_map_iff.
  intros (x & Hx & Hin). apply filter_In in Hin as [Hin _]. eauto.
Qed.

Lemma NoDup_remove_query (q : nat) (l : list query) :
  NoDup (map qid l) -> NoDup (map qid (remove_query q l)).
Proof.
  induction l as [|x r IH]; intros H; simpl; [constructor|].
  inversion H as [|? ? Hnotin Hnd]; subst.
  destruct (negb (Nat.eqb (qid x) q)); simpl; [|now apply IH].
  constructor; [|now apply IH].
  intros Hin. apply Hnotin. now apply in_remove_query in Hin.
Qed.

Lemma ids_fresh_step e st st' :
  ids_fresh st -> step e st = Some st' ->
  ids_fresh st'
  /\ (List.length (inflight st') + (if is_tick e then 0 else 1)
      = List.length (inflight st) + (if is_tick e then 1 else 0))%nat
  /\ next_qid st' = (next_qid st + (if is_tick e then 1 else 0))%nat.
Proof.
  intros [Hnd Hlt] Hs. unfold waiting_ids in *. destruct e as [t|t q reply].
  - pose proof (tick_issues_and_rearms _ _ Hs) as (_ & Hi & _).
    assert (next_qid st' = S (next_qid st)) as Hn.
    { unfold step in Hs. simpl in Hs.
      destruct (t <? clock st); [discriminate|].
      destruct (timers st) as [|due rest]; [discriminate|].
      destruct (due <=? t); [|discriminate]. now injection Hs as <-. }
    simpl. split; [split|split].
    + unfold waiting_ids. rewrite Hi, map_app. simpl.
      apply NoDup_app; [exact Hnd | repeat constructor; simpl; tauto |].
      intros i Hin [<-|[]]. rewrite Forall_forall in Hlt.
      specialize (Hlt _ Hin). lia.
    + unfold waiting_ids. rewrite Hi, map_app, Hn. simpl.
      apply Forall_app. split.
      * eapply Forall_impl; [|exact Hlt]. simpl. intros; lia.
      * repeat constructor.
    + rewrite Hi, length_app. simpl. lia.
    + lia.
  - pose proof (settle_step _ _ _ _ Hs) as (_ & Hi).
    assert (next_qid st' = next_qid st
            /\ exists x, find_query q (inflight st) = Some x) as [Hn [x Hx]].
    { unfold step in Hs. simpl in Hs.
      destruct (t <? clock st); [discriminate|].
      destruct (find_query q (inflight st)) as [x|]; [|discriminate].
      destruct reply; [| |discriminate]; injection Hs as <-;
        (split; [reflexivity | eauto]). }
    simpl. split; [split|split].
    + unfold waiting_ids. rewrite Hi. now apply NoDup_remove_query.
    + unfold waiting_ids. rewrite Hi, Hn. apply Forall_forall.
      intros i Hin. apply in_remove_query in Hin.
      rewrite Forall_forall in Hlt. now apply Hlt.
    + rewrite Hi. pose proof (remove_one q (inflight st) x Hnd Hx). lia.
    + lia.
Qed.

Lemma counting_run evs : forall st st',
  ids_fresh st -> run evs st = Some st' ->
  ids_fresh st'
  /\ (List.length (inflight st') + replies_of evs
      = List.length (inflight st) + ticks_of evs)%nat
  /\ next_qid st' = (next_qid st + ticks_of evs)%nat.
Proof.
  induction evs as [|e r IH]; intros st st' Hf Hr; simpl in Hr.
  - injection Hr as <-. unfold replies_of, ticks_of. simpl.
    split; [exact Hf|]. split; lia.
  - destruct (step e st) as [st1|] eqn:Hs; [|discriminate].
    destruct (ids_fresh_step e st st1 Hf Hs) as (Hf1 & Hl1 & Hn1).
    destruct (IH _ _ Hf1 Hr) as (Hf' & Hl' & Hn').
    split; [exact Hf'|].
    unfold replies_of, ticks_of in *. simpl.
    destruct (is_tick e); simpl in *; split; lia.
Qed.

(** X20.  Queries are accounted for one by one: after any history of
    the loop, each tick has sent exactly one query and each reply has
    retired exactly one, so the number still waiting is the number of
    ticks minus the number of replies, and the ids waiting are distinct. *)
Theorem refresh_accounting (a : App) (t0 : Z) (evs : list event) (st : state) :
  run evs (boot a t0) = Some st ->
  (List.length (inflight st) + replies_of evs = ticks_of evs)%nat
  /\ next_qid st = ticks_of evs
  /\ NoDup (waiting_ids st).
Proof.
  intros Hr.
  assert (ids_fresh (boot a t0)) as Hf by (split; constructor).
  destruct (counting_run evs _ _ Hf Hr) as ((Hnd & _) & Hl & Hn).
  simpl in Hl, Hn. split; [lia|]. split; [lia | exact Hnd].
Qed.

Lemma refresh_accounting_witness :
  exists st,
    run [TimerFires 60000; TimerFires 120000;
         BalanceSettles 120100 1 (Rejected rpc_down); TimerFires 180000]
        (boot demo_app 0) = Some st
    /\ (List.length (inflight st) + 1 = 3)%nat
    /\ next_qid st = 3%nat
    /\ NoDup (waiting_ids st).
Proof.
  eexists. split; [vm_compute; reflexivity|].
  apply (@refresh_accounting demo_app 0
           [TimerFires 60000; TimerFires 120000;
            BalanceSettles 120100 1 (Rejected rpc_down); TimerFires 180000]).
  vm_compute; reflexivity.
Defined.

(** X21.  What [GET /] shows while the loop runs: after any history the
    status reply carries the network id, contract address, account and
    name of the application object the loop was started with, and as
    balance the value of the last successful reply (the start-up balance
    if there was none). *)
Theorem status_follows_refresh env chain (a : App) (t0 : Z)
    (evs : list event) (st : state) :
  run evs (boot a t0) = Some st ->
  responses (effects_of (handle env chain GetRoot (app st)))
  = [JObj [("networkId", opt_num (networkId a));
           ("contractAddress", opt_str (option_map address (contract a)));
           ("address", opt_str (currentAccount a));
           ("balance", opt_str (last_resolved evs (balance a)));
           ("name", opt_str (name a))]].
Proof.
  intros Hr.
  pose proof (@run_identity evs _ _ Hr) as (Hn & Hc & Hk & Hm).
  pose proof (balance_after_run evs _ _ Hr) as Hb.
  simpl in Hn, Hc, Hk, Hm, Hb.
  unfold handle, get_root. run_M. unfold effects_of. simpl.
  now rewrite Hn, Hc, Hk, Hm, Hb.
Qed.

Lemma status_follows_refresh_witness :
  exists st,
    run [TimerFires 60000; BalanceSettles 60250 0 (Resolved "999")]
        (boot demo_app 0) = Some st
    /\ responses (effects_of (handle demo_env demo_chain GetRoot (app st)))
       = [JObj [("networkId", JNum 4); ("contractAddress", JStr "0xc0de");
                ("address", JStr "0xa11ce"); ("balance", JStr "999");
                ("name", JStr "Example")]].
Proof.
  eexists. split; [reflexivity|].
  apply (@status_follows_refresh demo_env demo_chain demo_app 0
           [TimerFires 60000; BalanceSettles 60250 0 (Resolved "999")]).
  reflexivity.
Defined.

End RefreshCounting.

Section RefreshAccount.
Import RefreshLoop.
Local Open Scope Z_scope.

Lemma asks_only_for_step acct e st st' :
  currentAccount (app st) = acct ->
  asks_only_for acct st -> step e st = Some st' ->
  currentAccount (app st') = acct /\ asks_only_for acct st'.
Proof.
  intros Ha [Hq Ht] Hs. unfold step in Hs.
  destruct (time_of e <? clock st); [discriminate|].
  destruct e as [t|t q reply].
  - destruct (timers st) as [|due rest]; [discriminate|].
    destruct (due <=? t); [|discriminate]. injection Hs as <-. simpl.
    split; [exact Ha|]. split; simpl.
    + apply Forall_app. split; [exact Hq|]. repeat constructor. exact Ha.
    + apply Forall_app. split; [|repeat constructor].
      apply Forall_app. split; [exact Ht|]. repeat constructor.
      simpl. now rewrite Ha.
  - destruct (find_query q (inflight st)); [|discriminate].
    assert (Forall (fun x => account x = acct) (remove_query q (inflight st)))
      as Hq' by now apply Forall_remove_query.
    destruct reply as [b|err|err]; [| |discriminate]; injection Hs as <-;
      simpl; (split; [exact Ha|]); split; simpl;
      try exact Hq'; apply Forall_app; (split; [exact Ht|]);
      repeat constructor.
Qed.

Lemma asks_only_for_run acct evs : forall st st',
  currentAccount (app st) = acct ->
  asks_only_for acct st -> run evs st = Some st' ->
  asks_only_for acct st'.
Proof.
  induction evs as [|e r IH]; intros st st' Ha Hi Hr; simpl in Hr.
  - now injection Hr as <-.
  - destruct (step e st) as [st1|] eqn:Hs; [|discriminate].
    destruct (asks_only_for_step acct e st st1 Ha Hi Hs) as [Ha1 Hi1].
    exact (IH _ _ Ha1 Hi1 Hr).
Qed.

(** X22.  The loop only ever asks for the balance of the account chosen
    at start-up: in any history, every request it sends is
    [eth.getBalance] for [this.currentAccount] as it was when the loop
    was started, and it sends nothing to the contract. *)
Theorem refresh_asks_for_current_account (a : App) (t0 : Z)
    (evs : list event) (st : state) :
  run evs (boot a t0) = Some st ->
  asks_only_for (currentAccount a) st.
Proof.
  intros Hr. apply (asks_only_for_run (currentAccount a) evs (boot a t0) st).
  - reflexivity.
  - split; simpl; repeat constructor.
  - exact Hr.
Qed.

Lemma refresh_asks_for_current_account_witness :
  exists st,
    run [TimerFires 60000; BalanceSettles 60250 0 (Resolved "999");
         TimerFires 120000]
        (boot demo_app 0) = Some st
    /\ asks_only_for (Some "0xa11ce") st.
Proof.
  eexists. split; [reflexivity|].
  apply (@refresh_asks_for_current_account demo_app 0
           [TimerFires 60000; BalanceSettles 60250 0 (Resolved "999");
            TimerFires 120000]).
  reflexivity.
Defined.

End RefreshAccount.
